(** * bokeh.server.tornado: the BokehTornado application

    A shallow embedding of [bokeh/server/tornado.py].  The server object and
    the objects it shares with its callers (sessions, connections) live in an
    explicit state; every method is a computation in a state-and-exception
    monad, so that a Python [raise] leaves behind exactly the mutations made
    before it.  Calls into tornado, [concurrent.futures], [logging] and
    [print] are recorded, in program order, in a trace of events. *)

From stdpp Require Import gmap strings list fin_maps.
From Stdlib Require Import ZArith.

Local Open Scope string_scope.

(** ** Exceptions and results *)

Inductive Exn :=
| HTTPError (status_code : Z) (reason : string)
| ValueError (msg : string)
| RuntimeError (msg : string)
| KeyError (key : string)
| KeyboardInterrupt
| WebSocketClosedError
| AttributeError (msg : string)
| OtherError (msg : string).

Inductive Result (A : Type) :=
| Ok (a : A)
| Raise (e : Exn).
Arguments Ok {A} a.
Arguments Raise {A} e.

(** ** Collaborators: tornado, concurrent.futures, logging *)

(** An [IOLoop] is known by its identity only. *)
Definition IOLoop := nat.

(** The bound methods of the server that are handed out as callbacks. *)
Inductive Method :=
| m_log_stats
| m_cleanup_sessions
| m_keep_alive
| m_start_async
| m_atexit
| m_sigterm
| m_cleanup.

(** [PeriodicCallback(callback, callback_time, io_loop=...)]; the time is in
    milliseconds. *)
Record PeriodicCallback := {
  callback : Method;
  callback_time : Z;
  pc_io_loop : IOLoop
}.

(** [ProcessPoolExecutor(max_workers=...)]. *)
Record ProcessPoolExecutor := { max_workers : nat }.

(** Handler classes are opaque; they are known by name. *)
Definition Handler := string.

(** The keyword dictionary attached to a per-application route.  The
    application context is shared with [_applications]: the route refers to
    it by its key. *)
Record Kwargs := {
  application_context : string;
  bokeh_websocket_path : option string
}.

(** A route: [(regex, handler)] or [(regex, handler, kwargs)]. *)
Record Pattern := {
  route : string;
  handler : Handler;
  kwargs : option Kwargs
}.

Inductive Level := DEBUG | ERROR.

Inductive LogArg :=
| ArgInt (n : Z)
| ArgPatterns (ps : list Pattern).

(** What the server does to the outside world. *)
Inductive Event :=
| Log (lvl : Level) (fmt : string) (args : list LogArg)
| Print (msg : string)
| IOLoop_current
| IOLoop_clear_current
| IOLoop_new (l : IOLoop)
| Loop_make_current (l : IOLoop)
| Loop_run_sync (l : IOLoop) (m : Method)
| Loop_add_callback (l : IOLoop) (m : Method)
| Loop_start (l : IOLoop)
| Loop_stop (l : IOLoop)
| PC_start (pc : PeriodicCallback)
| PC_stop (pc : PeriodicCallback)
| TornadoApplication_init (ps : list Pattern) (settings : list (string * string))
| Executor_new (n : nat)
| Executor_submit (func : string)
| Executor_shutdown (wait : bool)
| Socket_ping (ws : nat) (data : nat)
| Atexit_register (m : Method)
| Signal_SIGTERM (m : Method).

Global Instance Method_eq_dec : EqDecision Method.
Proof. solve_decision. Defined.
Global Instance PeriodicCallback_eq_dec : EqDecision PeriodicCallback.
Proof. solve_decision. Defined.
Global Instance Kwargs_eq_dec : EqDecision Kwargs.
Proof. solve_decision. Defined.
Global Instance Pattern_eq_dec : EqDecision Pattern.
Proof. solve_decision. Defined.
Global Instance Level_eq_dec : EqDecision Level.
Proof. solve_decision. Defined.
Global Instance LogArg_eq_dec : EqDecision LogArg.
Proof. solve_decision. Defined.
Global Instance Event_eq_dec : EqDecision Event.
Proof. solve_decision. Defined.

(** ** The objects of the repository that the server holds *)

(** A request, as far as the server reads it. *)
Record Request := {
  host : string;
  protocol : string
}.

(** [bokeh.resources.Resources(mode=..., root_url=...)].  [res_id] is the
    identity of the object: two constructions give two objects. *)
Record Resources := {
  res_id : nat;
  mode : string;
  root_url : string
}.

(** An application is an opaque handle. *)
Definition Application := string.

Record Session := {
  session_id : string;
  created : Z;
  last_active : Z;
  connection_count : nat;
  expired : bool
}.

(** [ApplicationContext(application, io_loop)] with the sessions it owns. *)
Record ApplicationContext := {
  application : Application;
  ctx_loop : IOLoop;
  sessions : gmap string Session
}.

(** The transport's socket handle; [ws_open] tells whether a frame can still
    be written to it. *)
Record WebSocket := {
  ws_id : nat;
  ws_open : bool
}.

(** [ServerConnection(protocol, socket, application_context, session)].  The
    application context and the session are references: a path and a
    session id. *)
Record ServerConnection := {
  conn_protocol : string;
  conn_socket : WebSocket;
  conn_application_context : string;
  conn_session : option string;
  ping_count : nat
}.

(** ** The state *)

(** The attributes of a [BokehTornado] instance. *)
Record BokehTornado := {
  _loop : IOLoop;
  _hosts : list string;
  _resources : gmap string Resources;
  _applications : gmap string ApplicationContext;
  handlers : list Pattern;
  _clients : gset nat;
  _executor : ProcessPoolExecutor;
  _stats_job : PeriodicCallback;
  _unused_session_linger_seconds : Z;
  _cleanup_job : PeriodicCallback;
  _ping_job : option PeriodicCallback;
  _atexit_ran : bool
}.

(** What lies outside the instance: the connection objects (by identity),
    the allocator of identities, the clock, the process id and the trace. *)
Record World := {
  heap : gmap nat ServerConnection;
  next_id : nat;
  now : Z;
  pid : Z;
  trace : list Event
}.

Record State := {
  self : BokehTornado;
  world : World
}.

Definition set_resources (v : gmap string Resources) (s : BokehTornado) : BokehTornado :=
  {| _loop := _loop s; _hosts := _hosts s; _resources := v;
     _applications := _applications s; handlers := handlers s;
     _clients := _clients s; _executor := _executor s;
     _stats_job := _stats_job s;
     _unused_session_linger_seconds := _unused_session_linger_seconds s;
     _cleanup_job := _cleanup_job s; _ping_job := _ping_job s;
     _atexit_ran := _atexit_ran s |}.

Definition set_applications (v : gmap string ApplicationContext) (s : BokehTornado) : BokehTornado :=
  {| _loop := _loop s; _hosts := _hosts s; _resources := _resources s;
     _applications := v; handlers := handlers s;
     _clients := _clients s; _executor := _executor s;
     _stats_job := _stats_job s;
     _unused_session_linger_seconds := _unused_session_linger_seconds s;
     _cleanup_job := _cleanup_job s; _ping_job := _ping_job s;
     _atexit_ran := _atexit_ran s |}.

Definition set_clients (v : gset nat) (s : BokehTornado) : BokehTornado :=
  {| _loop := _loop s; _hosts := _hosts s; _resources := _resources s;
     _applications := _applications s; handlers := handlers s;
     _clients := v; _executor := _executor s;
     _stats_job := _stats_job s;
     _unused_session_linger_seconds := _unused_session_linger_seconds s;
     _cleanup_job := _cleanup_job s; _ping_job := _ping_job s;
     _atexit_ran := _atexit_ran s |}.

Definition set_atexit_ran (v : bool) (s : BokehTornado) : BokehTornado :=
  {| _loop := _loop s; _hosts := _hosts s; _resources := _resources s;
     _applications := _applications s; handlers := handlers s;
     _clients := _clients s; _executor := _executor s;
     _stats_job := _stats_job s;
     _unused_session_linger_seconds := _unused_session_linger_seconds s;
     _cleanup_job := _cleanup_job s; _ping_job := _ping_job s;
     _atexit_ran := v |}.

Definition set_heap (v : gmap nat ServerConnection) (w : World) : World :=
  {| heap := v; next_id := next_id w; now := now w; pid := pid w; trace := trace w |}.

Definition set_next_id (v : nat) (w : World) : World :=
  {| heap := heap w; next_id := v; now := now w; pid := pid w; trace := trace w |}.

Definition set_trace (v : list Event) (w : World) : World :=
  {| heap := heap w; next_id := next_id w; now := now w; pid := pid w; trace := v |}.

Definition on_self (f : BokehTornado -> BokehTornado) (st : State) : State :=
  {| self := f (self st); world := world st |}.

Definition on_world (f : World -> World) (st : State) : State :=
  {| self := self st; world := f (world st) |}.

(** ** The monad of methods *)

Definition M (A : Type) : Type := State -> Result A * State.

Definition ret {A} (a : A) : M A := fun st => (Ok a, st).

Definition raise {A} (e : Exn) : M A := fun st => (Raise e, st).

Definition bind {A B} (m : M A) (k : A -> M B) : M B :=
  fun st =>
    match m st with
    | (Ok a, st') => k a st'
    | (Raise e, st') => (Raise e, st')
    end.

Global Instance M_ret : MRet M := @ret.
Global Instance M_bind : MBind M := fun A B k m => bind m k.

Definition gets {A} (f : BokehTornado -> A) : M A := fun st => (Ok (f (self st)), st).

Definition asks {A} (f : World -> A) : M A := fun st => (Ok (f (world st)), st).

Definition modify (f : BokehTornado -> BokehTornado) : M unit :=
  fun st => (Ok tt, on_self f st).

Definition modify_world (f : World -> World) : M unit :=
  fun st => (Ok tt, on_world f st).

(** An event is appended to the trace. *)
Definition emit_w (e : Event) (w : World) : World := set_trace (trace w ++ [e]) w.

Definition emit (e : Event) : M unit := modify_world (emit_w e).

(** A fresh object identity. *)
Definition fresh : M nat :=
  n ← asks next_id;
  modify_world (set_next_id (S n));;
  ret n.

(** [try: body except KeyboardInterrupt: handler]. *)
Definition try_except_KeyboardInterrupt {A} (body handler : M A) : M A :=
  fun st =>
    match body st with
    | (Raise KeyboardInterrupt, st') => handler st'
    | r => r
    end.

(** [KeyboardInterrupt] is the one exception here that is not an
    [Exception]. *)
Definition is_Exception (e : Exn) : bool :=
  match e with
  | KeyboardInterrupt => false
  | _ => true
  end.

(** [try: body except Exception: handler]. *)
Definition try_except_Exception {A} (body handler : M A) : M A :=
  fun st =>
    match body st with
    | (Raise e, st') => if is_Exception e then handler st' else (Raise e, st')
    | r => r
    end.

(** A call that has the effect [e], unless it raises [outcome]. *)
Definition call (e : Event) (outcome : option Exn) : M unit :=
  match outcome with
  | None => emit e
  | Some x => raise x
  end.

(** [for x in l: body(x)]. *)
Fixpoint for_each {A} (l : list A) (body : A -> M unit) : M unit :=
  match l with
  | [] => ret tt
  | x :: l' => body x;; for_each l' body
  end.


(** ** Strings *)

(** [s.endswith(suffix)]. *)
Definition endswith (s suffix : string) : bool :=
  let n := String.length s in
  let m := String.length suffix in
  if (m <=? n)%nat then String.eqb (String.substring (n - m) m s) suffix else false.

(** ** Calls on the collaborators *)

Definition log (lvl : Level) (fmt : string) (args : list LogArg) : M unit :=
  emit (Log lvl fmt args).

Definition print (msg : string) : M unit := emit (Print msg).

Definition PeriodicCallback_start (pc : PeriodicCallback) : M unit := emit (PC_start pc).

Definition PeriodicCallback_stop (pc : PeriodicCallback) : M unit := emit (PC_stop pc).

(** How a call of [IOLoop.start] ends: the loop is stopped and the call
    returns, or a keyboard interrupt comes out of it. *)
Inductive LoopOutcome := Returned | Interrupted.

Definition IOLoop_start (l : IOLoop) (o : LoopOutcome) : M unit :=
  emit (Loop_start l);;
  match o with
  | Returned => ret tt
  | Interrupted => raise KeyboardInterrupt
  end.

Definition IOLoop_stop (l : IOLoop) : M unit := emit (Loop_stop l).

(** [Resources(mode=..., root_url=...)]: a new object. *)
Definition Resources_new (mode root_url : string) : M Resources :=
  i ← fresh;
  ret {| res_id := i; mode := mode; root_url := root_url |}.

Definition ApplicationContext_new (v : Application) (l : IOLoop) : ApplicationContext :=
  {| application := v; ctx_loop := l; sessions := ∅ |}.

(** ** Sessions and connections *)

Definition set_sessions (v : gmap string Session) (ctx : ApplicationContext) : ApplicationContext :=
  {| application := application ctx; ctx_loop := ctx_loop ctx; sessions := v |}.

Definition new_session (t : Z) (sid : string) : Session :=
  {| session_id := sid; created := t; last_active := t;
     connection_count := 0; expired := false |}.

(** Modelled from the spec: the lookup-or-create of a session directory
    ([ApplicationContext.get_session], whose module
    [bokeh/server/application_context.py] is not among the sources).  It
    returns the existing session if present and not expired; otherwise it
    constructs a new one, records its creation and last-active time, and
    stores it. *)
Definition getOrCreateSession (t : Z) (sid : string) (ctx : ApplicationContext)
  : Session * ApplicationContext :=
  let create :=
    let s := new_session t sid in (s, set_sessions (<[sid := s]> (sessions ctx)) ctx) in
  match sessions ctx !! sid with
  | Some s => if expired s then create else (s, ctx)
  | None => create
  end.

Definition is_idle (t max_idle : Z) (s : Session) : bool :=
  bool_decide (connection_count s = 0%nat) && (max_idle <? t - last_active s)%Z.

(** Modelled from the spec: the idle eviction of a session directory
    ([ApplicationContext.cleanup_sessions], not among the sources).  It
    removes every session with zero attached connections whose idle duration
    exceeds [max_idle]. *)
Definition evictIdle (t max_idle : Z) (ctx : ApplicationContext) : ApplicationContext :=
  set_sessions (filter (fun kv => is_idle t max_idle kv.2 = false) (sessions ctx)) ctx.

(** The session [sid] of the application at [path], updated in place. *)
Definition update_session (path sid : string) (f : Session -> Session) : M unit :=
  modify (fun s =>
    set_applications
      (alter (fun ctx => set_sessions (alter f sid (sessions ctx)) ctx) path (_applications s)) s).

Definition attach (t : Z) (s : Session) : Session :=
  {| session_id := session_id s; created := created s; last_active := t;
     connection_count := S (connection_count s); expired := expired s |}.

Definition detach (t : Z) (s : Session) : Session :=
  {| session_id := session_id s; created := created s; last_active := t;
     connection_count := pred (connection_count s); expired := expired s |}.

Definition store_connection (c : nat) (conn : ServerConnection) : M unit :=
  modify_world (fun w => set_heap (<[c := conn]> (heap w)) w).

(** Modelled from the spec: the construction of a connection
    ([ServerConnection], whose module [bokeh/server/connection.py] is not
    among the sources): one live client socket bound to one session and one
    application context, holding a back-reference to its session, which
    counts it as attached. *)
Definition ServerConnection_new (protocol : string) (socket : WebSocket)
    (application_context session : string) : M nat :=
  c ← fresh;
  store_connection c
    {| conn_protocol := protocol; conn_socket := socket;
       conn_application_context := application_context;
       conn_session := Some session; ping_count := 0 |};;
  t ← asks now;
  update_session application_context session (attach t);;
  ret c.

(** Modelled from the spec: [ServerConnection.detach_session] (not among
    the sources), the "detach from session" that a removal triggers: the
    back-reference is dropped and the session loses one attached connection;
    a connection that holds no session is left alone. *)
Definition detach_session (c : nat) : M unit :=
  h ← asks heap;
  match h !! c with
  | Some conn =>
      match conn_session conn with
      | Some sid =>
          t ← asks now;
          update_session (conn_application_context conn) sid (detach t);;
          store_connection c
            {| conn_protocol := conn_protocol conn; conn_socket := conn_socket conn;
               conn_application_context := conn_application_context conn;
               conn_session := None; ping_count := ping_count conn |}
      | None => ret tt
      end
  | None => ret tt
  end.

(** Modelled from the spec: [ServerConnection.send_ping] (not among the
    sources): a protocol-level ping frame is written to the connection's
    socket; the send fails when the socket no longer takes frames. *)
Definition send_ping (c : nat) : M unit :=
  h ← asks heap;
  match h !! c with
  | Some conn =>
      if ws_open (conn_socket conn) then
        emit (Socket_ping (ws_id (conn_socket conn)) (ping_count conn));;
        store_connection c
          {| conn_protocol := conn_protocol conn; conn_socket := conn_socket conn;
             conn_application_context := conn_application_context conn;
             conn_session := conn_session conn; ping_count := S (ping_count conn) |}
      else raise WebSocketClosedError
  | None => ret tt
  end.

(** [self._applications[app_path].get_session(session_id)]. *)
Definition ApplicationContext_get_session (app_path session_id : string) : M Session :=
  apps ← gets _applications;
  match apps !! app_path with
  | None => raise (KeyError app_path)
  | Some ctx =>
      t ← asks now;
      let r := getOrCreateSession t session_id ctx in
      modify (set_applications (<[app_path := r.2]> apps));;
      ret r.1
  end.

(** ** The constructor *)

Section Construction.

(** The route tables of [bokeh/server/urls.py] and the settings of
    [bokeh/server/settings.py]. *)
Variable per_app_patterns : list (string * Handler).
Variable toplevel_patterns : list Pattern.
Variable settings : list (string * string).

(** The routes of the application at [key], each with its keyword
    dictionary. *)
Definition app_patterns_for (key : string) : list Pattern :=
  (fun p : string * Handler =>
     {| route := if String.eqb key "/" then p.1 else key ++ p.1;
        handler := p.2;
        kwargs := Some {| application_context := key;
                          bokeh_websocket_path := None |} |})
    <$> per_app_patterns.

(** The last route that ends with [/ws], if any. *)
Definition find_websocket_path (app_patterns : list Pattern) : option string :=
  fold_left
    (fun acc r => if endswith (route r) "/ws" then Some (route r) else acc)
    app_patterns None.

(** [r[2]["bokeh_websocket_path"] = websocket_path]. *)
Definition set_websocket_path (websocket_path : string) (r : Pattern) : Pattern :=
  {| route := route r; handler := handler r;
     kwargs := (fun k => {| application_context := application_context k;
                            bokeh_websocket_path := Some websocket_path |})
                 <$> kwargs r |}.

(** The loop over the keys of [applications]. *)
Fixpoint relative_patterns_for (keys : list string) : Result (list Pattern) :=
  match keys with
  | [] => Ok []
  | key :: keys' =>
      let app_patterns := app_patterns_for key in
      match find_websocket_path app_patterns with
      | None | Some EmptyString => Raise (RuntimeError "Couldn't find websocket path")
      | Some websocket_path =>
          match relative_patterns_for keys' with
          | Ok ps => Ok ((set_websocket_path websocket_path <$> app_patterns) ++ ps)%list
          | Raise e => Raise e
          end
      end
  end.

(** [BokehTornado.__init__]; [current] is what [IOLoop.current()]
    returns.  The keys of [applications] are walked in the order of
    [map_to_list], which stands for the order in which Python walks the
    dictionary; the call of [TornadoApplication.__init__] is recorded as an
    event and taken to return: what tornado makes of the routes is not part
    of this file. *)
Definition __init__ (applications : gmap string Application) (hosts : list string)
    (io_loop : option IOLoop) (extra_patterns : option (list Pattern))
    (keep_alive_milliseconds : Z) (current : IOLoop) (w : World)
  : Result BokehTornado * World :=
  let '(loop, w) :=
    match io_loop with
    | None => (current, emit_w IOLoop_current w)
    | Some l => (l, w)
    end in
  if (keep_alive_milliseconds <? 0)%Z then
    (Raise (ValueError "keep_alive_milliseconds must be >= 0"), w)
  else
    let apps := (fun v => ApplicationContext_new v loop) <$> applications in
    let extra := default [] extra_patterns in
    match relative_patterns_for (map_to_list applications).*1 with
    | Raise e => (Raise e, w)
    | Ok relative_patterns =>
        let all_patterns := (extra ++ relative_patterns ++ toplevel_patterns)%list in
        let w := emit_w (Log DEBUG "Patterns are: %r" [ArgPatterns all_patterns]) w in
        let w := emit_w (TornadoApplication_init all_patterns settings) w in
        let w := emit_w (Executor_new 4) w in
        let w := emit_w (Loop_add_callback loop m_start_async) w in
        (Ok {| _loop := loop;
               _hosts := hosts;
               _resources := ∅;
               _applications := apps;
               handlers := all_patterns;
               _clients := ∅;
               _executor := {| max_workers := 4 |};
               _stats_job := {| callback := m_log_stats; callback_time := 15000;
                                pc_io_loop := loop |};
               _unused_session_linger_seconds := 60 * 30;
               _cleanup_job := {| callback := m_cleanup_sessions; callback_time := 17000;
                                  pc_io_loop := loop |};
               _ping_job :=
                 if (0 <? keep_alive_milliseconds)%Z then
                   Some {| callback := m_keep_alive;
                           callback_time := keep_alive_milliseconds;
                           pc_io_loop := loop |}
                 else None;
               _atexit_ran := false |}, w)
    end.

End Construction.

(** ** The methods *)

(** The text of the error record of [_check_host_whitelist]. *)
Definition not_in_whitelist_message (h : string) : string :=
  "Request with Host: '" ++ h ++
  "' not in the host whitelist, if this is a valid host for your web server add a --host option to bokeh serve".

Definition _check_host_whitelist (request : Request) : M unit :=
  hosts ← gets _hosts;
  if bool_decide (host request ∉ hosts) then
    log ERROR (not_in_whitelist_message (host request)) [];;
    raise (HTTPError 403 "request host not in whitelist")
  else ret tt.

Definition root_url_for_request (request : Request) : M string :=
  _check_host_whitelist request;;
  ret (protocol request ++ "://" ++ host request ++ "/").

Definition websocket_url_for_request (request : Request) (websocket_path : string) : M string :=
  _check_host_whitelist request;;
  let protocol := if String.eqb (protocol request) "https" then "wss" else "ws" in
  ret (protocol ++ "://" ++ host request ++ websocket_path).

Definition resources (request : Request) : M Resources :=
  root_url ← root_url_for_request request;
  cache ← gets _resources;
  (if bool_decide (root_url ∉ dom cache) then
     r ← Resources_new "server" root_url;
     modify (fun s => set_resources (<[root_url := r]> (_resources s)) s)
   else ret tt);;
  cache ← gets _resources;
  match cache !! root_url with
  | Some r => ret r
  | None => raise (KeyError root_url)
  end.

Definition start (o : LoopOutcome) : M unit :=
  stats_job ← gets _stats_job;
  PeriodicCallback_start stats_job;;
  cleanup_job ← gets _cleanup_job;
  PeriodicCallback_start cleanup_job;;
  ping_job ← gets _ping_job;
  match ping_job with
  | Some j => PeriodicCallback_start j
  | None => ret tt
  end;;
  loop ← gets _loop;
  try_except_KeyboardInterrupt
    (IOLoop_start loop o)
    (print (String (Ascii.ascii_of_nat 10) "Interrupted, shutting down")).

Definition stop : M unit :=
  stats_job ← gets _stats_job;
  PeriodicCallback_stop stats_job;;
  cleanup_job ← gets _cleanup_job;
  PeriodicCallback_stop cleanup_job;;
  ping_job ← gets _ping_job;
  match ping_job with
  | Some j => PeriodicCallback_stop j
  | None => ret tt
  end;;
  loop ← gets _loop;
  IOLoop_stop loop.

Definition executor : M ProcessPoolExecutor := gets _executor.

Definition new_connection (protocol : string) (socket : WebSocket)
    (application_context session : string) : M nat :=
  connection ← ServerConnection_new protocol socket application_context session;
  modify (fun s => set_clients (_clients s ∪ {[connection]}) s);;
  ret connection.

Definition client_lost (connection : nat) : M unit :=
  modify (fun s => set_clients (_clients s ∖ {[connection]}) s);;
  detach_session connection.

(** The text of the error of [get_session]. *)
Definition does_not_exist_message (app_path : string) : string :=
  "Application " ++ app_path ++ " does not exist on this server".

Definition get_session (app_path session_id : string) : M Session :=
  apps ← gets _applications;
  if bool_decide (app_path ∉ dom apps) then
    raise (ValueError (does_not_exist_message app_path))
  else ApplicationContext_get_session app_path session_id.

Definition cleanup_sessions : M unit :=
  t ← asks now;
  modify (fun s =>
    set_applications
      (evictIdle t (_unused_session_linger_seconds s) <$> _applications s) s).

Definition log_stats : M unit :=
  p ← asks pid;
  clients ← gets _clients;
  log DEBUG "[pid %d] %d clients connected" [ArgInt p; ArgInt (Z.of_nat (size clients))].

Definition keep_alive : M unit :=
  clients ← gets _clients;
  for_each (elements clients) send_ping.

(** [run_in_background]: the function is submitted to the executor; [res]
    is what the future yields. *)
Definition run_in_background (_func : string) (res : Result string) : M string :=
  emit (Executor_submit _func);;
  match res with
  | Ok v => ret v
  | Raise e => raise e
  end.

(** [self.exit(1)]: neither the class nor tornado's [Application] has an
    attribute [exit], so the lookup raises. *)
Definition self_exit (code : Z) : M unit :=
  raise (AttributeError "'BokehTornado' object has no attribute 'exit'").

(** [_start_async]; the two outcomes tell whether [atexit.register] and
    [signal.signal] return or raise. *)
Definition _start_async (atexit_outcome signal_outcome : option Exn) : M unit :=
  try_except_Exception
    (call (Atexit_register m_atexit) atexit_outcome;;
     call (Signal_SIGTERM m_sigterm) signal_outcome)
    (self_exit 1).

Definition _cleanup : M unit :=
  log DEBUG "Shutdown: cleaning up" [];;
  emit (Executor_shutdown false);;
  modify (set_clients ∅).

Definition _atexit : M unit :=
  ran ← gets _atexit_ran;
  if (ran : bool) then ret tt
  else
    modify (set_atexit_ran true);;
    stats_job ← gets _stats_job;
    PeriodicCallback_stop stats_job;;
    emit IOLoop_clear_current;;
    loop ← fresh;
    emit (IOLoop_new loop);;
    emit (Loop_make_current loop);;
    emit (Loop_run_sync loop m_cleanup);;
    _cleanup.

Definition _sigterm (signum : Z) (frame : unit) : M unit :=
  print "Received SIGTERM, shutting down";;
  stop;;
  _atexit.

(** ** The operations of the server, as a client of it can call them *)

Inductive Op :=
| op_root_url_for_request (request : Request)
| op_websocket_url_for_request (request : Request) (websocket_path : string)
| op_resources (request : Request)
| op_start (o : LoopOutcome)
| op_stop
| op_new_connection (protocol : string) (socket : WebSocket)
    (application_context session : string)
| op_client_lost (connection : nat)
| op_get_session (app_path session_id : string)
| op_cleanup_sessions
| op_log_stats
| op_keep_alive
| op_run_in_background (_func : string) (res : Result string)
| op_start_async (atexit_outcome signal_outcome : option Exn)
| op_atexit
| op_sigterm (signum : Z)
| op_cleanup.

(** The state an operation leaves behind, whether it returns or raises. *)
Definition step (st : State) (op : Op) : State :=
  match op with
  | op_root_url_for_request r => (root_url_for_request r st).2
  | op_websocket_url_for_request r p => (websocket_url_for_request r p st).2
  | op_resources r => (resources r st).2
  | op_start o => (start o st).2
  | op_stop => (stop st).2
  | op_new_connection p s a i => (new_connection p s a i st).2
  | op_client_lost c => (client_lost c st).2
  | op_get_session a i => (get_session a i st).2
  | op_cleanup_sessions => (cleanup_sessions st).2
  | op_log_stats => (log_stats st).2
  | op_keep_alive => (keep_alive st).2
  | op_run_in_background f r => (run_in_background f r st).2
  | op_start_async a b => (_start_async a b st).2
  | op_atexit => (_atexit st).2
  | op_sigterm n => (_sigterm n tt st).2
  | op_cleanup => (_cleanup st).2
  end.

Definition steps (st : State) (ops : list Op) : State := fold_left step ops st.

(** A call of [shutdown] on the executor, whatever its [wait]. *)
Definition is_executor_shutdown (e : Event) : bool :=
  match e with
  | Executor_shutdown _ => true
  | _ => false
  end.

(** How often the executor has been shut down. *)
Definition executor_shutdowns (st : State) : nat :=
  length (filter (fun e => is_executor_shutdown e = true) (trace (world st))).

(** The three entries of the shutdown path. *)
Inductive Shutdown :=
| via_atexit
| via_sigterm (signum : Z)
| via_stop.

Definition shutdown (how : Shutdown) : M unit :=
  match how with
  | via_atexit => _atexit
  | via_sigterm signum => _sigterm signum tt
  | via_stop => stop
  end.

(** ** What the job entry points add to the trace *)

Definition add_events (evs : list Event) (w : World) : World :=
  set_trace (trace w ++ evs) w.

(** One call per periodic job that exists: the stats job, the cleanup job
    and, when there is one, the ping job. *)
Definition job_events (f : PeriodicCallback -> Event) (s : BokehTornado) : list Event :=
  [f (_stats_job s); f (_cleanup_job s)] ++
  match _ping_job s with
  | Some j => [f j]
  | None => []
  end.

Definition start_events (s : BokehTornado) (o : LoopOutcome) : list Event :=
  job_events PC_start s ++ [Loop_start (_loop s)] ++
  match o with
  | Returned => []
  | Interrupted => [Print (String (Ascii.ascii_of_nat 10) "Interrupted, shutting down")]
  end.

Definition stop_events (s : BokehTornado) : list Event :=
  job_events PC_stop s ++ [Loop_stop (_loop s)].

(** An event that starts or stops a job whose callback is [keep_alive]. *)
Definition is_ping_job_event (e : Event) : Prop :=
  match e with
  | PC_start pc | PC_stop pc => callback pc = m_keep_alive
  | _ => False
  end.

(** What the constructor has done when it reaches the keep-alive check: at
    most the call of [IOLoop.current()]. *)
Definition before_keep_alive_check (io_loop : option IOLoop) : list Event :=
  match io_loop with
  | None => [IOLoop_current]
  | Some _ => []
  end.

(** ** Relations between the state before and after an operation *)

(** The attributes that are set by the constructor and never assigned
    again. *)
Definition config_of (s : BokehTornado) :=
  (_loop s, _hosts s, handlers s, _executor s, _stats_job s,
   _unused_session_linger_seconds s, _cleanup_job s, _ping_job s).

Definition same_config (st st' : State) : Prop :=
  config_of (self st') = config_of (self st).

(** The resource cache has kept every entry it had. *)
Definition cache_grows (st st' : State) : Prop :=
  _resources (self st) ⊆ _resources (self st').

(** No connection other than those of [gone] has left the connection set,
    and the executor has not been shut down in between. *)
Definition no_cleanup (gone : gset nat) (st st' : State) : Prop :=
  _clients (self st) ∖ gone ⊆ _clients (self st') /\
  executor_shutdowns st' = executor_shutdowns st.

(** The computation [m] relates every state to the state it leaves. *)
Definition preserves (R : State -> State -> Prop) {A} (m : M A) : Prop :=
  forall st, R st (m st).2.

(** The operations of the cleanup path. *)
Definition is_cleanup_path (op : Op) : bool :=
  match op with
  | op_atexit | op_sigterm _ | op_cleanup => true
  | _ => false
  end.

(** The connections an operation is asked to remove. *)
Definition removed_by (op : Op) : gset nat :=
  match op with
  | op_client_lost c => {[c]}
  | _ => ∅
  end.

(** ** What the cleanup path adds to the trace *)

Definition cleanup_events : list Event :=
  [Log DEBUG "Shutdown: cleaning up" []; Executor_shutdown false].

(** The calls of a first [_atexit]; [loop] is the new loop it makes. *)
Definition atexit_events (s : BokehTornado) (loop : IOLoop) : list Event :=
  [PC_stop (_stats_job s); IOLoop_clear_current; IOLoop_new loop;
   Loop_make_current loop; Loop_run_sync loop m_cleanup] ++ cleanup_events.

(** The state after [_cleanup]. *)
Definition cleaned_up (st : State) : State :=
  {| self := set_clients ∅ (self st);
     world := add_events cleanup_events (world st) |}.

(** The state after a first [_atexit]. *)
Definition exited (st : State) : State :=
  {| self := set_clients ∅ (set_atexit_ran true (self st));
     world := add_events (atexit_events (self st) (next_id (world st)))
                (set_next_id (S (next_id (world st))) (world st)) |}.

Definition sigterm_notice : Event := Print "Received SIGTERM, shutting down".

(** What a further run of the shutdown path adds to the trace, once
    [_atexit] has run. *)
Definition repeated_shutdown_events (s : BokehTornado) (how : Shutdown) : list Event :=
  match how with
  | via_atexit => []
  | via_sigterm _ => sigterm_notice :: stop_events s
  | via_stop => stop_events s
  end.

(** ** A server to run *)

Definition example_per_app_patterns : list (string * Handler) :=
  [("/?", "DocHandler"); ("/ws", "WSHandler"); ("/autoload.js", "AutoloadJsHandler")].

Definition example_toplevel_patterns : list Pattern :=
  [{| route := "/static/(.*)"; handler := "StaticHandler"; kwargs := None |}].

Definition example_applications : gmap string Application := {[ "/app" := "app" ]}.

Definition example_world : World :=
  {| heap := ∅; next_id := 0; now := 0; pid := 4242; trace := [] |}.

(** [BokehTornado({"/app": app}, ["good.example"], io_loop=7,
    keep_alive_milliseconds=k)]. *)
Definition example_init (k : Z) : Result BokehTornado * World :=
  __init__ example_per_app_patterns example_toplevel_patterns []
    example_applications ["good.example"] (Some 7) None k 0 example_world.

Definition example_kwargs : option Kwargs :=
  Some {| application_context := "/app"; bokeh_websocket_path := Some "/app/ws" |}.

Definition example_patterns : list Pattern :=
  [{| route := "/app/?"; handler := "DocHandler"; kwargs := example_kwargs |};
   {| route := "/app/ws"; handler := "WSHandler"; kwargs := example_kwargs |};
   {| route := "/app/autoload.js"; handler := "AutoloadJsHandler"; kwargs := example_kwargs |};
   {| route := "/static/(.*)"; handler := "StaticHandler"; kwargs := None |}].

(** The server that [example_init k] builds, for [k] that is not
    negative. *)
Definition example_server (k : Z) : BokehTornado :=
  {| _loop := 7;
     _hosts := ["good.example"];
     _resources := ∅;
     _applications := {[ "/app" := ApplicationContext_new "app" 7 ]};
     handlers := example_patterns;
     _clients := ∅;
     _executor := {| max_workers := 4 |};
     _stats_job := {| callback := m_log_stats; callback_time := 15000; pc_io_loop := 7 |};
     _unused_session_linger_seconds := 1800;
     _cleanup_job := {| callback := m_cleanup_sessions; callback_time := 17000;
                        pc_io_loop := 7 |};
     _ping_job :=
       if (0 <? k)%Z then
         Some {| callback := m_keep_alive; callback_time := k; pc_io_loop := 7 |}
       else None;
     _atexit_ran := false |}.

Definition example_init_world : World :=
  {| heap := ∅; next_id := 0; now := 0; pid := 4242;
     trace := [Log DEBUG "Patterns are: %r" [ArgPatterns example_patterns];
               TornadoApplication_init example_patterns [];
               Executor_new 4;
               Loop_add_callback 7 m_start_async] |}.

Definition example_state (k : Z) : State :=
  {| self := example_server k; world := example_init_world |}.

(** ** Connections, seen from the server *)

(** The connection object [c] holds no session (any more). *)
Definition detached (c : nat) (st : State) : Prop :=
  match heap (world st) !! c with
  | Some conn => conn_session conn = None
  | None => True
  end.

(** How many connections the session [sid] of the application at [path]
    counts as attached. *)
Definition session_connections (path sid : string) (st : State) : option nat :=
  match _applications (self st) !! path with
  | Some ctx => connection_count <$> sessions ctx !! sid
  | None => None
  end.

(** Two clients have connected and the exit handler has run. *)
Definition two_clients_then_exit : list Op :=
  [op_get_session "/app" "s1";
   op_new_connection "bokeh" {| ws_id := 10; ws_open := true |} "/app" "s1";
   op_new_connection "bokeh" {| ws_id := 11; ws_open := false |} "/app" "s1";
   op_atexit].

(** A ping can be written to the socket of [c]. *)
Definition can_ping (h : gmap nat ServerConnection) (c : nat) : bool :=
  match h !! c with
  | Some conn => ws_open (conn_socket conn)
  | None => false
  end.

(** The socket of [c] takes no frame. *)
Definition cannot_ping (h : gmap nat ServerConnection) (c : nat) : bool :=
  match h !! c with
  | Some conn => negb (ws_open (conn_socket conn))
  | None => false
  end.

(** The ping frame that [send_ping] writes for the connection [conn]. *)
Definition ping_of (conn : ServerConnection) : Event :=
  Socket_ping (ws_id (conn_socket conn)) (ping_count conn).

(** [e] is the ping of the connection [c]. *)
Definition is_ping_of (h : gmap nat ServerConnection) (c : nat) (e : Event) : Prop :=
  exists conn, h !! c = Some conn /\ e = ping_of conn.

(** The connection object after one ping. *)
Definition pinged (conn : ServerConnection) : ServerConnection :=
  {| conn_protocol := conn_protocol conn; conn_socket := conn_socket conn;
     conn_application_context := conn_application_context conn;
     conn_session := conn_session conn; ping_count := S (ping_count conn) |}.

(** The state after [send_ping] went through for [c]. *)
Definition after_ping (c : nat) (conn : ServerConnection) (st : State) : State :=
  on_world (fun w => set_heap (<[c := pinged conn]> (heap w)) w)
    (on_world (emit_w (ping_of conn)) st).

(** A server with two clients of the application at [/app]: the first, on
    an open socket, and the second, whose socket is closed. *)
Definition two_clients : list Op :=
  [op_get_session "/app" "s1";
   op_new_connection "bokeh" {| ws_id := 10; ws_open := true |} "/app" "s1";
   op_new_connection "bokeh" {| ws_id := 11; ws_open := false |} "/app" "s1"].

(** The same with both sockets open. *)
Definition two_open_clients : list Op :=
  [op_get_session "/app" "s1";
   op_new_connection "bokeh" {| ws_id := 10; ws_open := true |} "/app" "s1";
   op_new_connection "bokeh" {| ws_id := 11; ws_open := true |} "/app" "s1"].

Definition good_request : Request := {| host := "good.example"; protocol := "http" |}.

Definition evil_request : Request := {| host := "evil.example"; protocol := "http" |}.

(** ** Routes *)

(** The route of the application at [key] for the pattern [suffix]. *)
Definition route_for (key suffix : string) : string :=
  if String.eqb key "/" then suffix else key ++ suffix.

(** The routes of the application at [key], in the order of the
    per-application patterns, each with the keyword dictionary that holds
    the key and the websocket path [w]. *)
Definition routes_of (per_app_patterns : list (string * Handler)) (key w : string)
  : list Pattern :=
  (fun p : string * Handler =>
     {| route := route_for key p.1;
        handler := p.2;
        kwargs := Some {| application_context := key;
                          bokeh_websocket_path := Some w |} |})
    <$> per_app_patterns.

(** [w] is the websocket path of the application at [key]: the route of
    the last per-application pattern whose route ends with [/ws]. *)
Definition websocket_path_of (per_app_patterns : list (string * Handler))
    (key w : string) : Prop :=
  exists pre p post,
    per_app_patterns = (pre ++ p :: post)%list /\
    w = route_for key p.1 /\
    endswith w "/ws" = true /\
    forall q, q ∈ post -> endswith (route_for key q.1) "/ws" = false.

(** Patterns of an installation that has no websocket handler. *)
Definition no_websocket_patterns : list (string * Handler) :=
  [("/?", "DocHandler"); ("/autoload.js", "AutoloadJsHandler")].

(** ** More relations between the state before and after an operation *)

(** What an application context is made from. *)
Definition made_from (ctx : ApplicationContext) : Application * IOLoop :=
  (application ctx, ctx_loop ctx).

(** The same paths are registered, each with the application and the loop
    it had. *)
Definition same_registry (st st' : State) : Prop :=
  made_from <$> _applications (self st') = made_from <$> _applications (self st).

(** The one-shot flag of [_atexit] is as it was. *)
Definition same_flag (st st' : State) : Prop :=
  _atexit_ran (self st') = _atexit_ran (self st).

(** Identities are never given out twice. *)
Definition alloc_grows (st st' : State) : Prop :=
  next_id (world st) <= next_id (world st').

(** The resource cache is as it was. *)
Definition same_cache (st st' : State) : Prop :=
  _resources (self st') = _resources (self st).

(** No connection has entered the connection set. *)
Definition clients_shrink (st st' : State) : Prop :=
  _clients (self st') ⊆ _clients (self st).

Definition is_resources (op : Op) : bool :=
  match op with op_resources _ => true | _ => false end.

Definition is_new_connection (op : Op) : bool :=
  match op with op_new_connection _ _ _ _ => true | _ => false end.

Definition is_get_session (op : Op) : bool :=
  match op with op_get_session _ _ => true | _ => false end.

(** ** Invariants *)

(** An entry of the resource cache is in order: the descriptor is the one
    of the URL it is stored under, in server mode, its identity has been
    given out, and the URL is the root URL of a whitelisted host. *)
Definition cache_entry_ok (hosts : list string) (bound : nat) (u : string) (r : Resources)
  : Prop :=
  root_url r = u /\ mode r = "server" /\ res_id r < bound /\
  exists scheme h, h ∈ hosts /\ u = scheme ++ "://" ++ h ++ "/".

Definition cache_ok (st : State) : Prop :=
  (forall u r, _resources (self st) !! u = Some r ->
     cache_entry_ok (_hosts (self st)) (next_id (world st)) u r) /\
  (forall u1 u2 r1 r2,
     _resources (self st) !! u1 = Some r1 -> _resources (self st) !! u2 = Some r2 ->
     res_id r1 = res_id r2 -> u1 = u2).

(** Every connection of the set has an identity that has been given out. *)
Definition clients_allocated (st : State) : Prop :=
  forall c, c ∈ _clients (self st) -> c < next_id (world st).

Definition is_direct_cleanup (op : Op) : bool :=
  match op with op_cleanup => true | _ => false end.

(** An event of the shutdown: a job or the loop is stopped, or the executor
    is shut down. *)
Definition is_shutdown_event (e : Event) : Prop :=
  match e with
  | PC_stop _ | Loop_stop _ | Executor_shutdown _ => True
  | _ => False
  end.

(** * Properties *)

(** ** Running the monad *)

Lemma run_bind {A B} (m : M A) (k : A -> M B) (st : State) :
  (m ≫= k) st =
  match m st with
  | (Ok a, st') => k a st'
  | (Raise e, st') => (Raise e, st')
  end.
Proof. reflexivity. Qed.

Lemma run_bind_ok {A B} (m : M A) (k : A -> M B) st a st' :
  m st = (Ok a, st') -> (m ≫= k) st = k a st'.
Proof. intros H. rewrite run_bind, H. reflexivity. Qed.

Lemma run_bind_raise {A B} (m : M A) (k : A -> M B) st e st' :
  m st = (Raise e, st') -> (m ≫= k) st = (Raise e, st').
Proof. intros H. rewrite run_bind, H. reflexivity. Qed.

Lemma run_emit (e : Event) (st : State) :
  emit e st = (Ok tt, on_world (emit_w e) st).
Proof. reflexivity. Qed.

Lemma run_gets {A} (f : BokehTornado -> A) st : gets f st = (Ok (f (self st)), st).
Proof. reflexivity. Qed.

Lemma run_asks {A} (f : World -> A) st : asks f st = (Ok (f (world st)), st).
Proof. reflexivity. Qed.

Ltac run_monad :=
  repeat (rewrite ?run_bind, ?run_gets, ?run_asks, ?run_emit; cbn beta iota).

(** ** Host validation *)

Lemma _check_host_whitelist_member st request :
  host request ∈ _hosts (self st) ->
  _check_host_whitelist request st = (Ok tt, st).
Proof.
  intros Hin. unfold _check_host_whitelist. run_monad.
  rewrite bool_decide_eq_false_2 by (intros Hn; exact (Hn Hin)).
  reflexivity.
Qed.

Lemma _check_host_whitelist_stranger st request :
  host request ∉ _hosts (self st) ->
  _check_host_whitelist request st =
  (Raise (HTTPError 403 "request host not in whitelist"),
   on_world (emit_w (Log ERROR (not_in_whitelist_message (host request)) [])) st).
Proof.
  intros Hnot. unfold _check_host_whitelist. run_monad.
  rewrite bool_decide_eq_true_2 by exact Hnot.
  reflexivity.
Qed.

(** C9: host validation is exact membership.  The check passes if and only
    if the host value of the request, as it stands (port included, no
    normalisation, no case folding, no wildcard), is an element of the
    configured hosts; it passes without touching the state, and otherwise it
    raises the 403 error. *)
Theorem check_host_whitelist_exact_membership (st : State) (request : Request) :
  (_check_host_whitelist request st = (Ok tt, st) <-> host request ∈ _hosts (self st)) /\
  ((exists st', _check_host_whitelist request st =
                 (Raise (HTTPError 403 "request host not in whitelist"), st'))
   <-> ~ (exists h, h ∈ _hosts (self st) /\ h = host request)).
Proof.
  destruct (decide (host request ∈ _hosts (self st))) as [Hin | Hnot].
  - split; split.
    + intros _. exact Hin.
    + intros _. apply _check_host_whitelist_member, Hin.
    + intros [st' H]. rewrite (_check_host_whitelist_member _ _ Hin) in H. discriminate.
    + intros Hn. exfalso. apply Hn. exists (host request). split; [exact Hin | reflexivity].
  - split; split.
    + intros H. rewrite (_check_host_whitelist_stranger _ _ Hnot) in H. discriminate.
    + intros Hin. contradiction.
    + intros _ [h [Hh Heq]]. subst h. contradiction.
    + intros _. eexists. apply _check_host_whitelist_stranger, Hnot.
Qed.

Lemma host_not_in_whitelist_is_forbidden_aux st request :
  host request ∉ _hosts (self st) ->
  root_url_for_request request st =
    (Raise (HTTPError 403 "request host not in whitelist"),
     on_world (emit_w (Log ERROR (not_in_whitelist_message (host request)) [])) st) /\
  resources request st =
    (Raise (HTTPError 403 "request host not in whitelist"),
     on_world (emit_w (Log ERROR (not_in_whitelist_message (host request)) [])) st).
Proof.
  intros Hnot.
  pose proof (_check_host_whitelist_stranger st request Hnot) as Hc.
  assert (Hroot : root_url_for_request request st =
    (Raise (HTTPError 403 "request host not in whitelist"),
     on_world (emit_w (Log ERROR (not_in_whitelist_message (host request)) [])) st)).
  { unfold root_url_for_request. apply run_bind_raise. exact Hc. }
  split; [exact Hroot |].
  unfold resources. apply run_bind_raise. exact Hroot.
Qed.

(** C1: a request whose host is not in the whitelist makes the root-URL
    derivation, the WebSocket-URL derivation and the resource lookup each
    fail with the 403 error; the only thing the failing call leaves behind is
    one error-level log record that carries the offending host: the server
    object (sessions, connection set, resource cache) and the connection
    objects are as before. *)
Theorem host_not_in_whitelist_is_forbidden
    (st : State) (request : Request) (websocket_path : string) :
  host request ∉ _hosts (self st) ->
  let forbidden := HTTPError 403 "request host not in whitelist" in
  let st' := on_world (emit_w (Log ERROR (not_in_whitelist_message (host request)) [])) st in
  root_url_for_request request st = (Raise forbidden, st') /\
  websocket_url_for_request request websocket_path st = (Raise forbidden, st') /\
  resources request st = (Raise forbidden, st') /\
  not_in_whitelist_message (host request) =
    "Request with Host: '" ++ host request ++
    "' not in the host whitelist, if this is a valid host for your web server add a --host option to bokeh serve" /\
  trace (world st') =
    (trace (world st) ++ [Log ERROR (not_in_whitelist_message (host request)) []])%list /\
  self st' = self st /\
  _applications (self st') = _applications (self st) /\
  _clients (self st') = _clients (self st) /\
  _resources (self st') = _resources (self st) /\
  heap (world st') = heap (world st) /\
  next_id (world st') = next_id (world st).
Proof.
  intros Hnot forbidden st'.
  pose proof (_check_host_whitelist_stranger st request Hnot) as Hc.
  assert (Hroot : root_url_for_request request st = (Raise forbidden, st')).
  { unfold root_url_for_request. apply run_bind_raise. exact Hc. }
  repeat split; try reflexivity.
  - exact Hroot.
  - unfold websocket_url_for_request. apply run_bind_raise. exact Hc.
  - unfold resources. apply run_bind_raise. exact Hroot.
Qed.

(** ** The trace *)

Lemma emit_w_add_events e : emit_w e = add_events [e].
Proof. reflexivity. Qed.

Lemma add_events_add_events l1 l2 st :
  on_world (add_events l2) (on_world (add_events l1) st) =
  on_world (add_events (l1 ++ l2)) st.
Proof.
  unfold on_world, add_events, set_trace. simpl. rewrite <- app_assoc. reflexivity.
Qed.

Lemma add_events_nil st : on_world (add_events []) st = st.
Proof.
  destruct st as [s w]. destruct w. unfold on_world, add_events, set_trace. simpl.
  rewrite app_nil_r. reflexivity.
Qed.

Lemma run_emit' (e : Event) (st : State) :
  emit e st = (Ok tt, on_world (add_events [e]) st).
Proof. reflexivity. Qed.

Ltac run_trace :=
  repeat (rewrite ?run_bind, ?run_gets, ?run_asks, ?run_emit'; cbn beta iota);
  cbn [self on_world]; rewrite ?add_events_add_events.

(** ** Sessions *)

Lemma set_applications_same st :
  on_self (set_applications (_applications (self st))) st = st.
Proof. destruct st as [s w]. destruct s. reflexivity. Qed.

(** C3: for an application path that is not registered, [get_session]
    raises its error (the ValueError that plays NotFoundError) and leaves the
    whole state as it was, so no session is created; for a registered path
    it returns the session of that id, which is then stored in the
    directory of that path: the one that was there when it was present and
    not expired (and then nothing changes), a newly created one otherwise. *)
Theorem get_session_registered_or_not (st : State) (app_path sid : string) :
  (app_path ∉ dom (_applications (self st)) ->
   get_session app_path sid st =
   (Raise (ValueError (does_not_exist_message app_path)), st)) /\
  (forall ctx, _applications (self st) !! app_path = Some ctx ->
   exists s ctx',
     get_session app_path sid st =
       (Ok s, on_self (set_applications (<[app_path := ctx']> (_applications (self st)))) st) /\
     sessions ctx' !! sid = Some s /\
     (forall sid', sid' <> sid -> sessions ctx' !! sid' = sessions ctx !! sid') /\
     (forall s0, sessions ctx !! sid = Some s0 -> expired s0 = false ->
        s = s0 /\ ctx' = ctx /\ get_session app_path sid st = (Ok s, st)) /\
     ((sessions ctx !! sid = None \/
       exists s0, sessions ctx !! sid = Some s0 /\ expired s0 = true) ->
        s = new_session (now (world st)) sid /\
        sessions ctx' = <[sid := s]> (sessions ctx))).
Proof.
  split.
  - intros Hnot. unfold get_session. run_monad.
    rewrite bool_decide_eq_true_2 by exact Hnot. reflexivity.
  - intros ctx Hctx.
    assert (Hin : app_path ∈ dom (_applications (self st))).
    { apply elem_of_dom. eauto. }
    assert (Hrun : get_session app_path sid st =
      (Ok (getOrCreateSession (now (world st)) sid ctx).1,
       on_self (set_applications
         (<[app_path := (getOrCreateSession (now (world st)) sid ctx).2]>
            (_applications (self st)))) st)).
    { unfold get_session. run_monad.
      rewrite bool_decide_eq_false_2 by (intros Hn; exact (Hn Hin)).
      unfold ApplicationContext_get_session. run_monad. rewrite Hctx. reflexivity. }
    exists (getOrCreateSession (now (world st)) sid ctx).1,
           (getOrCreateSession (now (world st)) sid ctx).2.
    split; [exact Hrun |]. rewrite Hrun. clear Hrun.
    unfold getOrCreateSession.
    destruct (sessions ctx !! sid) as [s0 |] eqn:Hs0; [destruct (expired s0) eqn:Hexp |];
      simpl; split_and!;
      try (apply lookup_insert_eq);
      try (intros sid' Hne; apply lookup_insert_ne; congruence);
      try (intros s1 Hs1 He1; congruence);
      try (intros _; split; reflexivity);
      try (intros [Hnone | [s1 [Hs1 He1]]]; congruence);
      try done.
    intros s1 Hs1 He1. split_and!.
    + congruence.
    + reflexivity.
    + rewrite insert_id by exact Hctx. rewrite set_applications_same. reflexivity.
Qed.

(** ** Construction *)

Section ConstructionFacts.

Variable per_app_patterns : list (string * Handler).
Variable toplevel_patterns : list Pattern.
Variable settings : list (string * string).

Local Abbreviation init := (__init__ per_app_patterns toplevel_patterns settings).

Lemma init_negative applications hosts io_loop extra_patterns k current w :
  (k < 0)%Z ->
  init applications hosts io_loop extra_patterns k current w =
  (Raise (ValueError "keep_alive_milliseconds must be >= 0"),
   add_events (before_keep_alive_check io_loop) w).
Proof.
  intros Hk. unfold init, __init__.
  destruct io_loop as [l |]; simpl.
  - rewrite (proj2 (Z.ltb_lt k 0) Hk). f_equal.
    destruct w. unfold add_events, set_trace. simpl. rewrite app_nil_r. reflexivity.
  - rewrite (proj2 (Z.ltb_lt k 0) Hk). reflexivity.
Qed.

Lemma init_ok_ping_job applications hosts io_loop extra_patterns k current w srv w' :
  init applications hosts io_loop extra_patterns k current w = (Ok srv, w') ->
  _loop srv = default current io_loop /\
  _ping_job srv =
    (if (0 <? k)%Z then
       Some {| callback := m_keep_alive; callback_time := k;
               pc_io_loop := default current io_loop |}
     else None) /\
  _clients srv = ∅ /\ _resources srv = ∅ /\ _atexit_ran srv = false /\
  _hosts srv = hosts.
Proof.
  unfold init, __init__. intros H.
  destruct io_loop as [l |]; simpl in *;
    destruct (k <? 0)%Z; try discriminate;
    destruct (relative_patterns_for per_app_patterns _); try discriminate;
    inversion H; subst; simpl; split_and!; reflexivity.
Qed.

Lemma init_not_negative applications hosts io_loop extra_patterns k current w :
  (0 <= k)%Z ->
  (init applications hosts io_loop extra_patterns k current w).1 =
    Raise (RuntimeError "Couldn't find websocket path") \/
  exists srv, (init applications hosts io_loop extra_patterns k current w).1 = Ok srv.
Proof.
  intros Hk. unfold init, __init__.
  assert (Hlt : (k <? 0)%Z = false) by (apply Z.ltb_ge; exact Hk).
  assert (Hrel : forall keys,
    relative_patterns_for per_app_patterns keys =
      Raise (RuntimeError "Couldn't find websocket path") \/
    exists ps, relative_patterns_for per_app_patterns keys = Ok ps).
  { induction keys as [| key keys IH]; simpl.
    - right. eauto.
    - destruct (find_websocket_path (app_patterns_for per_app_patterns key)) as [[| a p] |];
        try (left; reflexivity).
      destruct IH as [IH | [ps IH]]; rewrite IH; [left; reflexivity | right; eauto]. }
  destruct io_loop as [l |]; simpl; rewrite Hlt;
    (destruct (Hrel (map_to_list applications).*1) as [Hr | [ps Hr]]; rewrite Hr;
     [left; reflexivity | right; eexists; reflexivity]).
Qed.

(** C6: a keep-alive interval below zero makes the constructor raise its
    ValueError (the configuration error) and return no server object; up to
    that point it has created no executor, registered nothing with the
    loop, initialised no routes and allocated nothing: the only thing it
    may have done is to ask for the current loop.  An interval of exactly
    zero passes this check: the constructor then either returns a server or
    fails on the missing WebSocket route, never with this ValueError. *)
Theorem negative_keep_alive_rejected
    applications hosts io_loop extra_patterns k current w :
  ((k < 0)%Z ->
   exists w',
     init applications hosts io_loop extra_patterns k current w =
       (Raise (ValueError "keep_alive_milliseconds must be >= 0"), w') /\
     trace w' = (trace w ++ before_keep_alive_check io_loop)%list /\
     (forall e, e ∈ before_keep_alive_check io_loop -> e = IOLoop_current) /\
     heap w' = heap w /\ next_id w' = next_id w) /\
  (k = 0%Z ->
   (init applications hosts io_loop extra_patterns k current w).1 <>
     Raise (ValueError "keep_alive_milliseconds must be >= 0") /\
   ((init applications hosts io_loop extra_patterns k current w).1 =
      Raise (RuntimeError "Couldn't find websocket path") \/
    exists srv, (init applications hosts io_loop extra_patterns k current w).1 = Ok srv)).
Proof.
  split.
  - intros Hk. eexists. split; [apply init_negative; exact Hk |].
    split_and!; try reflexivity.
    intros e He. destruct io_loop; simpl in He.
    + inversion He.
    + apply list_elem_of_singleton in He. exact He.
  - intros Hk.
    assert (H0 : (0 <= k)%Z) by (subst k; apply Z.le_refl).
    destruct (init_not_negative applications hosts io_loop extra_patterns k current w H0)
      as [Hr | [srv Hr]]; rewrite Hr; split; try discriminate; eauto.
Qed.

End ConstructionFacts.

(** ** Starting and stopping *)

Lemma run_start o st :
  start o st = (Ok tt, on_world (add_events (start_events (self st) o)) st).
Proof.
  unfold start, start_events, job_events, PeriodicCallback_start,
    try_except_KeyboardInterrupt, IOLoop_start, print.
  destruct (_ping_job (self st)) as [j |] eqn:Hj; destruct o;
    run_trace; rewrite ?Hj; run_trace;
    unfold raise, mret, M_ret, ret; cbn beta iota; run_trace; reflexivity.
Qed.

Lemma run_stop st :
  stop st = (Ok tt, on_world (add_events (stop_events (self st))) st).
Proof.
  unfold stop, stop_events, job_events, PeriodicCallback_stop, IOLoop_stop.
  destruct (_ping_job (self st)) as [j |] eqn:Hj;
    run_trace; rewrite ?Hj; run_trace;
    unfold mret, M_ret, ret; cbn beta iota; run_trace; reflexivity.
Qed.

Lemma job_events_no_ping f s e :
  (forall pc, callback pc <> m_keep_alive -> ~ is_ping_job_event (f pc)) ->
  callback (_stats_job s) = m_log_stats ->
  callback (_cleanup_job s) = m_cleanup_sessions ->
  _ping_job s = None ->
  e ∈ job_events f s -> ~ is_ping_job_event e.
Proof.
  intros Hf Hs Hc Hp He. unfold job_events in He. rewrite Hp in He. simpl in He.
  apply elem_of_cons in He as [-> | He].
  - apply Hf. rewrite Hs. discriminate.
  - apply list_elem_of_singleton in He as ->. apply Hf. rewrite Hc. discriminate.
Qed.

(** ** The resource cache *)

Lemma run_root_url_for_request st request :
  host request ∈ _hosts (self st) ->
  root_url_for_request request st =
  (Ok (protocol request ++ "://" ++ host request ++ "/"), st).
Proof.
  intros Hin. unfold root_url_for_request.
  rewrite run_bind, (_check_host_whitelist_member _ _ Hin). reflexivity.
Qed.

Lemma run_resources_hit st request r :
  host request ∈ _hosts (self st) ->
  _resources (self st) !! (protocol request ++ "://" ++ host request ++ "/") = Some r ->
  resources request st = (Ok r, st).
Proof.
  intros Hin Hr. unfold resources.
  rewrite run_bind, (run_root_url_for_request _ _ Hin). run_monad.
  rewrite bool_decide_eq_false_2.
  - unfold ret. run_monad. rewrite Hr. reflexivity.
  - intros Hn. apply Hn. apply elem_of_dom. eauto.
Qed.

Lemma run_resources_miss st request :
  host request ∈ _hosts (self st) ->
  _resources (self st) !! (protocol request ++ "://" ++ host request ++ "/") = None ->
  let root_url := protocol request ++ "://" ++ host request ++ "/" in
  let r := {| res_id := next_id (world st); mode := "server"; root_url := root_url |} in
  resources request st =
  (Ok r, on_self (set_resources (<[root_url := r]> (_resources (self st))))
           (on_world (set_next_id (S (next_id (world st)))) st)).
Proof.
  intros Hin Hr root_url r. unfold resources.
  rewrite run_bind, (run_root_url_for_request _ _ Hin). run_monad.
  rewrite bool_decide_eq_true_2 by (apply not_elem_of_dom; exact Hr).
  unfold Resources_new, fresh, modify, modify_world, ret. run_monad.
  cbn [self on_self on_world set_resources _resources].
  fold root_url. fold r. rewrite lookup_insert_eq. reflexivity.
Qed.

(** ** Frame rules *)

Section Preserves.

Variable R : State -> State -> Prop.
Hypothesis R_refl : forall st, R st st.
Hypothesis R_trans : forall st1 st2 st3, R st1 st2 -> R st2 st3 -> R st1 st3.

Lemma preserves_ret {A} (a : A) : preserves R (mret a).
Proof. intros st. apply R_refl. Qed.

Lemma preserves_raise {A} e : preserves R (@raise A e).
Proof. intros st. apply R_refl. Qed.

Lemma preserves_gets {A} (f : BokehTornado -> A) : preserves R (gets f).
Proof. intros st. apply R_refl. Qed.

Lemma preserves_asks {A} (f : World -> A) : preserves R (asks f).
Proof. intros st. apply R_refl. Qed.

Lemma preserves_bind {A B} (m : M A) (k : A -> M B) :
  preserves R m -> (forall a, preserves R (k a)) -> preserves R (m ≫= k).
Proof.
  intros Hm Hk st. rewrite run_bind. specialize (Hm st).
  destruct (m st) as [[a | e] st1]; simpl in *.
  - eapply R_trans; [exact Hm | apply Hk].
  - exact Hm.
Qed.

Lemma preserves_for_each {A} (l : list A) (body : A -> M unit) :
  (forall x, preserves R (body x)) -> preserves R (for_each l body).
Proof.
  intros Hb. induction l as [| x l IH]; simpl.
  - apply preserves_ret.
  - apply preserves_bind; [apply Hb | intros _; exact IH].
Qed.

Lemma preserves_try {A} (body handler : M A) :
  preserves R body -> preserves R handler ->
  preserves R (try_except_KeyboardInterrupt body handler).
Proof.
  intros Hb Hh st. unfold try_except_KeyboardInterrupt. specialize (Hb st).
  destruct (body st) as [[a | e] st1]; simpl in *; try exact Hb.
  destruct e; simpl; try exact Hb.
  eapply R_trans; [exact Hb | apply Hh].
Qed.

Lemma preserves_try_Exception {A} (body handler : M A) :
  preserves R body -> preserves R handler ->
  preserves R (try_except_Exception body handler).
Proof.
  intros Hb Hh st. unfold try_except_Exception. specialize (Hb st).
  destruct (body st) as [[a | e] st1]; simpl in *; try exact Hb.
  destruct (is_Exception e); [| exact Hb].
  eapply R_trans; [exact Hb | apply Hh].
Qed.

Lemma preserves_steps (P : Op -> Prop) :
  (forall op st, P op -> R st (step st op)) ->
  forall ops st, Forall P ops -> R st (steps st ops).
Proof.
  intros Hstep ops. induction ops as [| op ops IH]; intros st Hall; simpl.
  - apply R_refl.
  - apply Forall_cons in Hall as [Hop Hall].
    eapply R_trans; [apply Hstep; exact Hop | apply IH; exact Hall].
Qed.

End Preserves.

Ltac unfold_methods :=
  unfold root_url_for_request, websocket_url_for_request, resources, start, stop,
    new_connection, client_lost, get_session, cleanup_sessions, log_stats, keep_alive,
    run_in_background, _start_async, self_exit, call, _atexit, _sigterm, _cleanup,
    _check_host_whitelist, ApplicationContext_get_session, ServerConnection_new,
    detach_session, send_ping, update_session, store_connection, Resources_new,
    PeriodicCallback_start, PeriodicCallback_stop, IOLoop_start, IOLoop_stop,
    stop, log, print, fresh, emit.

Ltac preserves_tac refl trans prim :=
  repeat lazymatch goal with
    | |- preserves _ (ret _) => apply (preserves_ret _ refl)
    | |- preserves _ (mret _) => apply (preserves_ret _ refl)
    | |- preserves _ (raise _) => apply (preserves_raise _ refl)
    | |- preserves _ (gets _) => apply (preserves_gets _ refl)
    | |- preserves _ (asks _) => apply (preserves_asks _ refl)
    | |- preserves _ (for_each _ _) => apply (preserves_for_each _ refl trans); intros ?
    | |- preserves _ (try_except_KeyboardInterrupt _ _) => apply (preserves_try _ trans)
    | |- preserves _ (try_except_Exception _ _) => apply (preserves_try_Exception _ trans)
    | |- preserves _ (mbind _ _) => apply (preserves_bind _ trans); [| intros ?]
    | |- preserves _ (modify _) => prim
    | |- preserves _ (modify_world _) => prim
    | |- preserves _ (let _ := _ in _) => cbv zeta
    | |- preserves _ (match ?x with _ => _ end) => destruct x
    | |- preserves _ (if ?x then _ else _) => destruct x
    | |- preserves _ _ => progress unfold_methods
    end.

Ltac as_preserves R :=
  match goal with
  | |- R ?st (?m ?st).2 => revert st; change (preserves R m)
  end.

(** *** The configuration is never assigned again *)

Lemma same_config_refl st : same_config st st.
Proof. reflexivity. Qed.

Lemma same_config_trans st1 st2 st3 :
  same_config st1 st2 -> same_config st2 st3 -> same_config st1 st3.
Proof. unfold same_config. congruence. Qed.

Lemma same_config_modify_world f : preserves same_config (modify_world f).
Proof. intros st. reflexivity. Qed.

Lemma same_config_modify f :
  (forall s, config_of (f s) = config_of s) -> preserves same_config (modify f).
Proof. intros Hf st. apply Hf. Qed.

Ltac same_config_prim :=
  first [ apply same_config_modify_world
        | apply same_config_modify; intros ?; reflexivity ].

Lemma same_config_step st op : same_config st (step st op).
Proof.
  destruct op; cbv beta iota delta [step]; as_preserves same_config; unfold_methods;
    preserves_tac same_config_refl same_config_trans same_config_prim.
Qed.

Lemma same_config_steps st ops : same_config st (steps st ops).
Proof.
  apply (preserves_steps same_config same_config_refl same_config_trans (fun _ => True)).
  - intros op st' _. apply same_config_step.
  - apply Forall_forall. intros; exact I.
Qed.

(** *** The resource cache only grows *)

Lemma cache_grows_refl st : cache_grows st st.
Proof. unfold cache_grows. reflexivity. Qed.

Lemma cache_grows_trans st1 st2 st3 :
  cache_grows st1 st2 -> cache_grows st2 st3 -> cache_grows st1 st3.
Proof. unfold cache_grows. intros H1 H2. etransitivity; eassumption. Qed.

Lemma cache_grows_modify_world f : preserves cache_grows (modify_world f).
Proof. intros st. unfold cache_grows. simpl. reflexivity. Qed.

Lemma cache_grows_modify f :
  (forall s, _resources (f s) = _resources s) -> preserves cache_grows (modify f).
Proof. intros Hf st. unfold cache_grows. simpl. rewrite Hf. reflexivity. Qed.

Ltac cache_grows_prim :=
  first [ apply cache_grows_modify_world
        | apply cache_grows_modify; intros ?; reflexivity ].

Lemma cache_grows_resources request : preserves cache_grows (resources request).
Proof.
  intros st. destruct (decide (host request ∈ _hosts (self st))) as [Hin | Hnot].
  - destruct (_resources (self st) !! (protocol request ++ "://" ++ host request ++ "/"))
      as [r |] eqn:Hr.
    + rewrite (run_resources_hit _ _ _ Hin Hr). apply cache_grows_refl.
    + rewrite (run_resources_miss _ _ Hin Hr). unfold cache_grows. simpl.
      apply insert_subseteq. exact Hr.
  - destruct (host_not_in_whitelist_is_forbidden_aux st request Hnot) as [_ ->].
    unfold cache_grows. simpl. reflexivity.
Qed.

Lemma cache_grows_step st op : cache_grows st (step st op).
Proof.
  destruct op; cbv beta iota delta [step]; as_preserves cache_grows;
    try apply cache_grows_resources;
    preserves_tac cache_grows_refl cache_grows_trans cache_grows_prim.
Qed.

Lemma cache_grows_steps st ops : cache_grows st (steps st ops).
Proof.
  apply (preserves_steps cache_grows cache_grows_refl cache_grows_trans (fun _ => True)).
  - intros op st' _. apply cache_grows_step.
  - apply Forall_forall. intros; exact I.
Qed.

(** *** Outside the cleanup path nothing is cleared or shut down *)

Lemma no_cleanup_refl gone st : no_cleanup gone st st.
Proof.
  unfold no_cleanup. split; [| reflexivity].
  intros x Hx. apply elem_of_difference in Hx as [Hx _]. exact Hx.
Qed.

Lemma no_cleanup_trans gone st1 st2 st3 :
  no_cleanup gone st1 st2 -> no_cleanup gone st2 st3 -> no_cleanup gone st1 st3.
Proof.
  unfold no_cleanup. intros [H1 E1] [H2 E2]. split; [| congruence].
  intros x Hx. apply H2. apply elem_of_difference.
  apply elem_of_difference in Hx as [Hx Hg]. split; [| exact Hg].
  apply H1. apply elem_of_difference. split; assumption.
Qed.

Lemma executor_shutdowns_emit e st :
  is_executor_shutdown e = false ->
  executor_shutdowns (on_world (emit_w e) st) = executor_shutdowns st.
Proof.
  intros He. unfold executor_shutdowns. simpl.
  rewrite filter_app, length_app, filter_cons_False by (rewrite He; discriminate).
  simpl. lia.
Qed.

Lemma no_cleanup_emit gone e :
  is_executor_shutdown e = false -> preserves (no_cleanup gone) (modify_world (emit_w e)).
Proof.
  intros He st. split; [apply (no_cleanup_refl gone st) | apply executor_shutdowns_emit; exact He].
Qed.

Lemma no_cleanup_modify_world gone f :
  (forall w, trace (f w) = trace w) -> preserves (no_cleanup gone) (modify_world f).
Proof.
  intros Hf st. split; [apply (no_cleanup_refl gone st) |].
  unfold executor_shutdowns. simpl. rewrite Hf. reflexivity.
Qed.

Lemma no_cleanup_modify gone f :
  (forall s, _clients s ∖ gone ⊆ _clients (f s)) -> preserves (no_cleanup gone) (modify f).
Proof. intros Hf st. split; [apply Hf | reflexivity]. Qed.

Ltac no_cleanup_prim :=
  first [ apply no_cleanup_emit; reflexivity
        | apply no_cleanup_modify_world; intros ?; reflexivity
        | apply no_cleanup_modify; intros ? x Hx; simpl;
          apply elem_of_difference in Hx as [Hx Hg];
          rewrite ?elem_of_union, ?elem_of_difference; tauto ].

Lemma no_cleanup_step st op :
  is_cleanup_path op = false -> no_cleanup (removed_by op) st (step st op).
Proof.
  destruct op; try discriminate; intros _;
    cbv beta iota delta [step removed_by];
    match goal with
    | |- no_cleanup ?g ?st (?m ?st).2 =>
        revert st; change (preserves (no_cleanup g) m);
        preserves_tac (no_cleanup_refl g) (no_cleanup_trans g) no_cleanup_prim
    end.
Qed.

(** ** The keep-alive job *)

Lemma same_config_ping_job st st' :
  same_config st st' ->
  _ping_job (self st') = _ping_job (self st) /\
  _stats_job (self st') = _stats_job (self st) /\
  _cleanup_job (self st') = _cleanup_job (self st) /\
  _loop (self st') = _loop (self st).
Proof. unfold same_config, config_of. intros H. inversion H. auto. Qed.

Lemma init_ok_jobs per_app_patterns toplevel_patterns settings
    applications hosts io_loop extra_patterns k current w srv w' :
  __init__ per_app_patterns toplevel_patterns settings
    applications hosts io_loop extra_patterns k current w = (Ok srv, w') ->
  callback (_stats_job srv) = m_log_stats /\
  callback (_cleanup_job srv) = m_cleanup_sessions.
Proof.
  unfold __init__. intros H.
  destruct io_loop as [l |]; simpl in *;
    destruct (k <? 0)%Z; try discriminate;
    destruct (relative_patterns_for per_app_patterns _); try discriminate;
    inversion H; subst; simpl; split; reflexivity.
Qed.

(** C5: let the constructor succeed with keep-alive interval [k], and let
    the server then go through any operations.  If [k] is 0 there is no
    ping job, and neither [start] nor [stop] starts or stops a job that
    calls [keep_alive].  If [k] is positive there is a ping job that calls
    [keep_alive] every [k] milliseconds; [start] starts it and [stop] stops
    it.  In both cases [start] and [stop] return normally and add exactly
    the listed calls to the trace. *)
Theorem keep_alive_job_follows_interval
    per_app_patterns toplevel_patterns settings
    applications hosts io_loop extra_patterns k current w srv w' ops o :
  __init__ per_app_patterns toplevel_patterns settings
    applications hosts io_loop extra_patterns k current w = (Ok srv, w') ->
  let st := steps {| self := srv; world := w' |} ops in
  start o st = (Ok tt, on_world (add_events (start_events (self st) o)) st) /\
  stop st = (Ok tt, on_world (add_events (stop_events (self st))) st) /\
  (k = 0%Z ->
   _ping_job srv = None /\ _ping_job (self st) = None /\
   forall e, e ∈ start_events (self st) o \/ e ∈ stop_events (self st) ->
             ~ is_ping_job_event e) /\
  ((0 < k)%Z ->
   exists pj,
     _ping_job srv = Some pj /\ _ping_job (self st) = Some pj /\
     callback pj = m_keep_alive /\ callback_time pj = k /\
     PC_start pj ∈ start_events (self st) o /\
     PC_stop pj ∈ stop_events (self st)).
Proof.
  intros Hinit st.
  destruct (init_ok_ping_job _ _ _ _ _ _ _ _ _ _ _ _ Hinit) as (_ & Hping & _).
  destruct (init_ok_jobs _ _ _ _ _ _ _ _ _ _ _ _ Hinit) as [Hstats Hcleanup].
  destruct (same_config_ping_job _ _ (same_config_steps {| self := srv; world := w' |} ops))
    as (Hp & Hs & Hc & _).
  fold st in Hp, Hs, Hc. simpl in Hp, Hs, Hc.
  split; [apply run_start |]. split; [apply run_stop |]. split.
  - intros ->. simpl in Hping. split; [exact Hping |]. split; [congruence |].
    intros e He. unfold start_events, stop_events in He.
    destruct He as [He | He]; apply elem_of_app in He as [He | He].
    + eapply job_events_no_ping; try exact He; try congruence;
        try (intros pc Hpc; exact Hpc).
    + apply elem_of_cons in He as [-> | He]; [intros [] |].
      destruct o; simpl in He.
      * inversion He.
      * apply list_elem_of_singleton in He as ->. intros [].
    + eapply job_events_no_ping; try exact He; try congruence;
        try (intros pc Hpc; exact Hpc).
    + apply list_elem_of_singleton in He as ->. intros [].
  - intros Hk. rewrite (proj2 (Z.ltb_lt 0 k) Hk) in Hping.
    eexists. split; [exact Hping |]. split; [congruence |].
    split; [reflexivity |]. split; [reflexivity |].
    unfold start_events, stop_events, job_events. rewrite Hp, Hping.
    split; apply elem_of_app; left; apply elem_of_app; right;
      apply list_elem_of_singleton; reflexivity.
Qed.

(** ** Stopping and cleaning up *)

Lemma executor_shutdowns_add_events evs st :
  executor_shutdowns (on_world (add_events evs) st) =
  executor_shutdowns st + length (filter (fun e => is_executor_shutdown e = true) evs).
Proof.
  unfold executor_shutdowns. simpl. rewrite filter_app, length_app. reflexivity.
Qed.

Lemma stop_events_no_shutdown s :
  filter (fun e => is_executor_shutdown e = true) (stop_events s) = [].
Proof.
  unfold stop_events, job_events. destruct (_ping_job s); reflexivity.
Qed.

Lemma run_cleanup st : _cleanup st = (Ok tt, cleaned_up st).
Proof.
  unfold _cleanup, log, cleaned_up, cleanup_events. run_trace. reflexivity.
Qed.

Lemma run_atexit_first st :
  _atexit_ran (self st) = false -> _atexit st = (Ok tt, exited st).
Proof.
  intros Hran. unfold _atexit. run_monad. rewrite Hran.
  unfold PeriodicCallback_stop, fresh, modify, modify_world, ret.
  run_monad. rewrite run_cleanup.
  unfold cleaned_up, exited, atexit_events, cleanup_events, add_events, emit_w, set_trace.
  cbn. rewrite <- !app_assoc. reflexivity.
Qed.

Lemma run_atexit_again st :
  _atexit_ran (self st) = true -> _atexit st = (Ok tt, st).
Proof. intros Hran. unfold _atexit. run_monad. rewrite Hran. reflexivity. Qed.

Lemma run_sigterm signum frame st :
  _sigterm signum frame st =
  _atexit (on_world (add_events (sigterm_notice :: stop_events (self st))) st).
Proof.
  unfold _sigterm, print. rewrite run_bind, run_emit'. cbn beta iota.
  rewrite run_bind, run_stop. cbn beta iota. cbn [self on_world].
  rewrite add_events_add_events. reflexivity.
Qed.

(** C10: [stop] returns normally and changes nothing of the server object
    nor of the connection objects: the connection set, the application
    registry, the resource cache and the executor are as before.  All it
    does is to call [stop] on the periodic jobs that exist and on the loop.
    Shutting down the executor and clearing the connection set is what
    [_cleanup] does, which a first [_atexit] runs; no operation outside
    that cleanup path shuts the executor down or takes a connection out of
    the set, except [client_lost] for the one connection it is given. *)
Theorem stop_touches_only_jobs_and_loop (st : State) :
  (exists st',
     stop st = (Ok tt, st') /\
     self st' = self st /\
     _clients (self st') = _clients (self st) /\
     _applications (self st') = _applications (self st) /\
     _resources (self st') = _resources (self st) /\
     _executor (self st') = _executor (self st) /\
     heap (world st') = heap (world st) /\
     executor_shutdowns st' = executor_shutdowns st /\
     trace (world st') = (trace (world st) ++ stop_events (self st))%list /\
     forall e, e ∈ stop_events (self st) ->
       e = PC_stop (_stats_job (self st)) \/ e = PC_stop (_cleanup_job (self st)) \/
       (exists j, _ping_job (self st) = Some j /\ e = PC_stop j) \/
       e = Loop_stop (_loop (self st))) /\
  (_cleanup st = (Ok tt, cleaned_up st) /\
   _clients (self (cleaned_up st)) = ∅ /\
   executor_shutdowns (cleaned_up st) = S (executor_shutdowns st)) /\
  (_atexit_ran (self st) = false ->
   _atexit st = (Ok tt, exited st) /\
   _clients (self (exited st)) = ∅ /\
   executor_shutdowns (exited st) = S (executor_shutdowns st)) /\
  (forall op, is_cleanup_path op = false ->
     _clients (self st) ∖ removed_by op ⊆ _clients (self (step st op)) /\
     executor_shutdowns (step st op) = executor_shutdowns st).
Proof.
  split_and!.
  - eexists. split; [apply run_stop |]. split_and!; try reflexivity.
    + rewrite executor_shutdowns_add_events, stop_events_no_shutdown. simpl. lia.
    + intros e He. unfold stop_events, job_events in He.
      rewrite !elem_of_app, !elem_of_cons in He.
      destruct He as [[[-> | [-> | He]] | He] | [-> | He]]; auto.
      * inversion He.
      * destruct (_ping_job (self st)) as [j |]; [| inversion He].
        apply list_elem_of_singleton in He as ->. right. right. left. eauto.
      * inversion He.
  - apply run_cleanup.
  - reflexivity.
  - change (cleaned_up st) with
      (on_self (set_clients ∅) (on_world (add_events cleanup_events) st)).
    unfold executor_shutdowns. simpl. rewrite filter_app, length_app. simpl. lia.
  - intros Hran. split_and!.
    + apply run_atexit_first, Hran.
    + reflexivity.
    + unfold executor_shutdowns. simpl. rewrite filter_app, length_app. simpl. lia.
  - intros op Hop. apply (no_cleanup_step st op Hop).
Qed.

(** ** The example server *)

Example example_init_37000 :
  example_init 37000 = (Ok (example_server 37000), example_init_world).
Proof. vm_compute. reflexivity. Qed.

Example example_init_0 :
  example_init 0 = (Ok (example_server 0), example_init_world).
Proof. vm_compute. reflexivity. Qed.

Example root_url_of_good_request :
  (root_url_for_request good_request (example_state 37000)).1 = Ok "http://good.example/".
Proof. vm_compute. reflexivity. Qed.

Example websocket_url_of_https_request :
  (websocket_url_for_request {| host := "good.example"; protocol := "https" |} "/app/ws"
     (example_state 37000)).1 = Ok "wss://good.example/app/ws".
Proof. vm_compute. reflexivity. Qed.

Example websocket_url_of_http_request :
  (websocket_url_for_request good_request "/app/ws" (example_state 37000)).1 =
  Ok "ws://good.example/app/ws".
Proof. vm_compute. reflexivity. Qed.

(** The whitelist holds [good.example]: another case, or a port, is another
    host. *)
Example host_with_other_case_is_rejected :
  (_check_host_whitelist {| host := "Good.example"; protocol := "http" |}
     (example_state 37000)).1 = Raise (HTTPError 403 "request host not in whitelist").
Proof. vm_compute. reflexivity. Qed.

Example host_with_port_is_rejected :
  (_check_host_whitelist {| host := "good.example:5006"; protocol := "http" |}
     (example_state 37000)).1 = Raise (HTTPError 403 "request host not in whitelist").
Proof. vm_compute. reflexivity. Qed.

Example two_clients_are_connected :
  elements (_clients (self (steps (example_state 37000) two_clients))) = [1; 0].
Proof. vm_compute. reflexivity. Qed.

Example first_sigterm_trace :
  trace (world (_sigterm 15 tt (example_state 0)).2) =
  (trace example_init_world ++
   [sigterm_notice;
    PC_stop (_stats_job (example_server 0)); PC_stop (_cleanup_job (example_server 0));
    Loop_stop 7;
    PC_stop (_stats_job (example_server 0));
    IOLoop_clear_current; IOLoop_new 0; Loop_make_current 0; Loop_run_sync 0 m_cleanup;
    Log DEBUG "Shutdown: cleaning up" []; Executor_shutdown false])%list.
Proof. vm_compute. reflexivity. Qed.

(** ** Shutting down twice *)

(** C2, as stated, fails: on the example server a second termination
    signal is not a no-op.  The handler prints its notice again and calls
    [stop] again before it reaches the guard of [_atexit], so the state after
    the second signal differs from the state before it. *)
Lemma second_sigterm_is_not_a_noop :
  let st1 := (_sigterm 15 tt (example_state 37000)).2 in
  _sigterm 15 tt st1 <> (Ok tt, st1).
Proof.
  intros st1 H.
  apply (f_equal (fun r => length (trace (world r.2)))) in H.
  vm_compute in H. discriminate H.
Qed.

(** C2, amended: when the shutdown path is entered twice, first through
    [_atexit] or a termination signal and then through [_atexit], a
    termination signal or [stop], both invocations return normally, and
    the cleanup sequence runs exactly once: the first invocation shuts the
    executor down once and clears the connection set, the second one shuts
    nothing down and leaves the server object and the connection objects as
    they are.  A second [_atexit] is a no-op.  A second termination signal
    and a duplicate [stop] are not: they call [stop] on the jobs and the loop
    again, and the signal handler prints its notice again. *)
Theorem shutdown_cleans_up_once (st : State) (first second : Shutdown) :
  _atexit_ran (self st) = false ->
  first <> via_stop ->
  exists st1 st2,
    shutdown first st = (Ok tt, st1) /\
    shutdown second st1 = (Ok tt, st2) /\
    executor_shutdowns st1 = S (executor_shutdowns st) /\
    _clients (self st1) = ∅ /\
    _atexit_ran (self st1) = true /\
    executor_shutdowns st2 = executor_shutdowns st1 /\
    self st2 = self st1 /\
    heap (world st2) = heap (world st1) /\
    next_id (world st2) = next_id (world st1) /\
    trace (world st2) =
      (trace (world st1) ++ repeated_shutdown_events (self st1) second)%list /\
    (second = via_atexit -> st2 = st1).
Proof.
  intros Hran Hfirst.
  assert (H1 : exists st1,
    shutdown first st = (Ok tt, st1) /\
    executor_shutdowns st1 = S (executor_shutdowns st) /\
    _clients (self st1) = ∅ /\ _atexit_ran (self st1) = true).
  { destruct first as [| signum |]; [| | contradiction]; simpl.
    - exists (exited st). split; [apply run_atexit_first, Hran |].
      split_and!; try reflexivity.
      unfold executor_shutdowns. simpl. rewrite filter_app, length_app. simpl. lia.
    - rewrite run_sigterm.
      eexists. split; [apply run_atexit_first; exact Hran |].
      split_and!; try reflexivity.
      unfold executor_shutdowns. simpl.
      rewrite !filter_app, !length_app, filter_cons_False by (vm_compute; discriminate).
      rewrite stop_events_no_shutdown. simpl. lia. }
  destruct H1 as (st1 & Hrun1 & Hex1 & Hcl1 & Hran1).
  exists st1.
  destruct second as [| signum |]; simpl.
  - exists st1. rewrite (run_atexit_again _ Hran1).
    split_and!; try done. simpl. rewrite app_nil_r. reflexivity.
  - rewrite run_sigterm, run_atexit_again by exact Hran1.
    eexists. split_and!; try done.
    rewrite executor_shutdowns_add_events. simpl.
    rewrite filter_cons_False by (vm_compute; discriminate).
    rewrite stop_events_no_shutdown. simpl. lia.
  - rewrite run_stop. eexists. split_and!; try done.
    rewrite executor_shutdowns_add_events, stop_events_no_shutdown. simpl. lia.
Qed.

(** ** The cache as a memo *)

(** C8: the resource cache is a memo keyed by the root URL.  A lookup for a
    request that passes host validation returns the descriptor stored under
    the root URL of the request and adds that one key, and no other, to the
    cache; a later lookup for a request with the same scheme and host,
    whatever the server has done in between, returns the very same object
    (same identity) and changes nothing; and no operation ever removes or
    replaces an entry of the cache. *)
Theorem resource_cache_is_a_growing_memo
    (st : State) (request1 request2 : Request) (ops : list Op) :
  host request1 ∈ _hosts (self st) ->
  host request2 = host request1 ->
  protocol request2 = protocol request1 ->
  let url := protocol request1 ++ "://" ++ host request1 ++ "/" in
  (exists r st1,
     resources request1 st = (Ok r, st1) /\
     _resources (self st1) !! url = Some r /\
     dom (_resources (self st1)) = dom (_resources (self st)) ∪ {[url]} /\
     (forall u, u <> url -> _resources (self st1) !! u = _resources (self st) !! u) /\
     (_resources (self st) !! url = None ->
        r = {| res_id := next_id (world st); mode := "server"; root_url := url |} /\
        next_id (world st1) = S (next_id (world st))) /\
     let st2 := steps st1 ops in
     resources request2 st2 = (Ok r, st2)) /\
  _resources (self st) ⊆ _resources (self (steps st ops)) /\
  (forall u r, _resources (self st) !! u = Some r ->
               _resources (self (steps st ops)) !! u = Some r).
Proof.
  intros Hin Hhost Hproto url.
  assert (Hlater : forall r st1,
    host request1 ∈ _hosts (self st1) ->
    _resources (self st1) !! url = Some r ->
    resources request2 (steps st1 ops) = (Ok r, steps st1 ops)).
  { intros r st1 Hin1 Hr. apply run_resources_hit.
    - pose proof (same_config_steps st1 ops) as Hc.
      unfold same_config, config_of in Hc.
      assert (Hh : _hosts (self (steps st1 ops)) = _hosts (self st1)) by congruence.
      rewrite Hhost, Hh. exact Hin1.
    - rewrite Hhost, Hproto.
      eapply lookup_weaken; [exact Hr | apply cache_grows_steps]. }
  split_and!.
  - destruct (_resources (self st) !! url) as [r |] eqn:Hr.
    + exists r, st. split; [apply run_resources_hit; assumption |].
      split_and!; try done.
      * apply set_eq. intros u. rewrite elem_of_union, elem_of_singleton.
        split; [auto |]. intros [Hu | ->]; [exact Hu |]. apply elem_of_dom. eauto.
      * apply Hlater; assumption.
    + eexists _, _. split; [apply run_resources_miss; assumption |].
      fold url. split_and!.
      * apply lookup_insert_eq.
      * simpl. rewrite dom_insert_L. apply set_eq. intros u.
        rewrite !elem_of_union. tauto.
      * intros u Hu. simpl. apply lookup_insert_ne. congruence.
      * intros _. split; reflexivity.
      * apply Hlater; [exact Hin | apply lookup_insert_eq].
  - apply cache_grows_steps.
  - intros u r Hr. eapply lookup_weaken; [exact Hr | apply cache_grows_steps].
Qed.

(** ** Losing a client *)

Lemma set_clients_same st :
  on_self (set_clients (_clients (self st))) st = st.
Proof. destruct st as [s w]. destruct s. reflexivity. Qed.

Lemma run_detach_session_detached c st :
  detached c st -> detach_session c st = (Ok tt, st).
Proof.
  unfold detached, detach_session. intros H. run_monad.
  destruct (heap (world st) !! c) as [conn |]; [| reflexivity].
  rewrite H. reflexivity.
Qed.

Lemma run_detach_session c st :
  exists st',
    detach_session c st = (Ok tt, st') /\
    _clients (self st') = _clients (self st) /\
    detached c st'.
Proof.
  unfold detach_session. run_monad.
  destruct (heap (world st) !! c) as [conn |] eqn:Hc.
  - destruct (conn_session conn) as [sid |] eqn:Hs.
    + unfold update_session, store_connection, modify, modify_world. run_monad.
      eexists. split; [reflexivity |]. split; [reflexivity |].
      unfold detached. simpl. rewrite lookup_insert_eq. reflexivity.
    + exists st. split; [reflexivity |]. split; [reflexivity |].
      unfold detached. rewrite Hc. exact Hs.
  - exists st. split; [reflexivity |]. split; [reflexivity |].
    unfold detached. rewrite Hc. exact I.
Qed.

Lemma run_client_lost c st :
  client_lost c st = detach_session c (on_self (set_clients (_clients (self st) ∖ {[c]})) st).
Proof. reflexivity. Qed.

Lemma run_detach_session_frame c st :
  exists st',
    detach_session c st = (Ok tt, st') /\
    _clients (self st') = _clients (self st) /\
    detached c st' /\
    trace (world st') = trace (world st) /\
    next_id (world st') = next_id (world st) /\
    _resources (self st') = _resources (self st) /\
    config_of (self st') = config_of (self st) /\
    _atexit_ran (self st') = _atexit_ran (self st) /\
    (forall c', c' <> c -> heap (world st') !! c' = heap (world st) !! c').
Proof.
  unfold detach_session. run_monad.
  destruct (heap (world st) !! c) as [conn |] eqn:Hc.
  - destruct (conn_session conn) as [sid |] eqn:Hs.
    + unfold update_session, store_connection, modify, modify_world. run_monad.
      eexists. split; [reflexivity |]. split_and!; try reflexivity.
      * unfold detached. simpl. rewrite lookup_insert_eq. reflexivity.
      * intros c' Hne. simpl. apply lookup_insert_ne. congruence.
    + exists st. split; [reflexivity |]. split_and!; try reflexivity.
      unfold detached. rewrite Hc. exact Hs.
  - exists st. split; [reflexivity |]. split_and!; try reflexivity.
    unfold detached. rewrite Hc. exact I.
Qed.

(** C7, as stated, fails: on the example server two clients connect and
    the exit handler runs, which clears the connection set without detaching
    anything.  The connection 0 is then not in the set, yet [client_lost]
    for it is not a no-op: it returns normally, but it detaches the
    connection from its session, which counts one connection less than
    before. *)
Lemma client_lost_after_cleanup_is_not_a_noop :
  let st := steps (example_state 37000) two_clients_then_exit in
  _clients (self st) = ∅ /\
  (0 ∉ _clients (self st)) /\
  client_lost 0 st <> (Ok tt, st) /\
  (client_lost 0 st).1 = Ok tt /\
  session_connections "/app" "s1" st = Some 2 /\
  session_connections "/app" "s1" (client_lost 0 st).2 = Some 1.
Proof.
  intros st.
  assert (Hempty : _clients (self st) = ∅) by (vm_compute; reflexivity).
  split_and!.
  - exact Hempty.
  - rewrite Hempty. apply not_elem_of_empty.
  - intros H.
    apply (f_equal (fun r => session_connections "/app" "s1" r.2)) in H.
    vm_compute in H. discriminate H.
  - vm_compute. reflexivity.
  - vm_compute. reflexivity.
  - vm_compute. reflexivity.
Qed.

(** C7, amended: [client_lost] never raises, and it is idempotent.  After
    it the connection is not in the connection set, which has lost nothing
    else, and the connection holds no session; nothing is logged, and no
    other connection object, no cache entry and nothing of the
    configuration is touched.  If the connection was not in the set, the set
    is as before and the call is not an error; but the call is a no-op
    exactly when the connection holds no session any more, because
    [detach_session] is called in any case.  A second [client_lost] for the
    same connection returns normally and leaves the whole state as the first
    one left it. *)
Theorem client_lost_is_idempotent (st : State) (c : nat) :
  exists st1,
    client_lost c st = (Ok tt, st1) /\
    _clients (self st1) = _clients (self st) ∖ {[c]} /\
    (c ∉ _clients (self st1)) /\
    (c ∉ _clients (self st) -> _clients (self st1) = _clients (self st)) /\
    client_lost c st1 = (Ok tt, st1) /\
    (c ∉ _clients (self st) -> detached c st -> st1 = st) /\
    (~ detached c st -> st1 <> st) /\
    detached c st1 /\
    trace (world st1) = trace (world st) /\
    next_id (world st1) = next_id (world st) /\
    _resources (self st1) = _resources (self st) /\
    config_of (self st1) = config_of (self st) /\
    _atexit_ran (self st1) = _atexit_ran (self st) /\
    (forall c', c' <> c -> heap (world st1) !! c' = heap (world st) !! c').
Proof.
  rewrite run_client_lost.
  destruct (run_detach_session_frame c
              (on_self (set_clients (_clients (self st) ∖ {[c]})) st))
    as (st1 & Hrun & Hcl & Hdet & Htrace & Hnext & Hres & Hconf & Hflag & Hheap).
  simpl in Hcl, Htrace, Hnext, Hres, Hconf, Hflag, Hheap.
  assert (Hsame : forall s : State, c ∉ _clients (self s) ->
            on_self (set_clients (_clients (self s) ∖ {[c]})) s = s).
  { intros s Hs. replace (_clients (self s) ∖ {[c]}) with (_clients (self s)).
    - apply set_clients_same.
    - apply set_eq. intros x. rewrite elem_of_difference, elem_of_singleton.
      split; [| tauto]. intros Hx. split; [exact Hx | congruence]. }
  assert (Hnot : c ∉ _clients (self st1)).
  { rewrite Hcl. rewrite elem_of_difference, elem_of_singleton. tauto. }
  exists st1. split_and!.
  - exact Hrun.
  - exact Hcl.
  - exact Hnot.
  - intros Hc. rewrite Hcl. apply set_eq. intros x.
    rewrite elem_of_difference, elem_of_singleton.
    split; [tauto |]. intros Hx. split; [exact Hx | congruence].
  - rewrite run_client_lost, (Hsame st1 Hnot).
    apply run_detach_session_detached, Hdet.
  - intros Hc Hd. rewrite (Hsame st Hc) in Hrun.
    rewrite (run_detach_session_detached _ _ Hd) in Hrun. congruence.
  - intros Hn Heq. apply Hn. rewrite <- Heq. exact Hdet.
  - exact Hdet.
  - exact Htrace.
  - exact Hnext.
  - exact Hres.
  - exact Hconf.
  - exact Hflag.
  - exact Hheap.
Qed.

(** ** Keeping connections alive *)

Lemma run_send_ping_open c conn st :
  heap (world st) !! c = Some conn ->
  ws_open (conn_socket conn) = true ->
  send_ping c st = (Ok tt, after_ping c conn st).
Proof.
  intros Hc Ho. unfold send_ping. run_monad. rewrite Hc, Ho. reflexivity.
Qed.

Lemma run_send_ping_closed c conn st :
  heap (world st) !! c = Some conn ->
  ws_open (conn_socket conn) = false ->
  send_ping c st = (Raise WebSocketClosedError, st).
Proof.
  intros Hc Ho. unfold send_ping. run_monad. rewrite Hc, Ho. reflexivity.
Qed.

Lemma can_ping_spec h c :
  can_ping h c = true ->
  exists conn, h !! c = Some conn /\ ws_open (conn_socket conn) = true.
Proof.
  unfold can_ping. destruct (h !! c) as [conn |]; [eauto | discriminate].
Qed.

Lemma cannot_ping_spec h c :
  cannot_ping h c = true ->
  exists conn, h !! c = Some conn /\ ws_open (conn_socket conn) = false.
Proof.
  unfold cannot_ping. destruct (h !! c) as [conn |]; [| discriminate].
  intros H. exists conn. split; [reflexivity |]. destruct (ws_open _); [discriminate | reflexivity].
Qed.

Lemma for_each_app {A} (l1 l2 : list A) (body : A -> M unit) st :
  for_each (l1 ++ l2) body st =
  match for_each l1 body st with
  | (Ok _, st') => for_each l2 body st'
  | (Raise e, st') => (Raise e, st')
  end.
Proof.
  revert st. induction l1 as [| x l1 IH]; intros st; simpl.
  - reflexivity.
  - rewrite !run_bind. destruct (body x st) as [[[] | e] st1]; [apply IH | reflexivity].
Qed.

Lemma Forall2_on_elements {A B} (P Q : A -> B -> Prop) (l : list A) (k : list B) :
  (forall x y, x ∈ l -> P x y -> Q x y) -> Forall2 P l k -> Forall2 Q l k.
Proof.
  intros H HF. induction HF as [| x y l k Hxy HF IH]; constructor.
  - apply H; [apply elem_of_cons; left; reflexivity | exact Hxy].
  - apply IH. intros x' y' Hx'. apply H. apply elem_of_cons. right. exact Hx'.
Qed.

(** A tick over connections that all take their ping. *)
Lemma for_each_send_ping_ok (l : list nat) :
  forall st,
    NoDup l ->
    forallb (can_ping (heap (world st))) l = true ->
    exists evs st',
      for_each l send_ping st = (Ok tt, st') /\
      self st' = self st /\
      trace (world st') = (trace (world st) ++ evs)%list /\
      Forall2 (is_ping_of (heap (world st))) l evs /\
      (forall c, c ∉ l -> heap (world st') !! c = heap (world st) !! c) /\
      (forall c conn, c ∈ l -> heap (world st) !! c = Some conn ->
                      heap (world st') !! c = Some (pinged conn)).
Proof.
  induction l as [| c l IH]; intros st Hnd Hall.
  - exists [], st. simpl. rewrite app_nil_r.
    split_and!; try reflexivity; try constructor.
    intros c conn Hc. inversion Hc.
  - apply NoDup_cons in Hnd as [Hcl Hnd].
    simpl in Hall. apply andb_true_iff in Hall as [Hc Hall].
    destruct (can_ping_spec _ _ Hc) as (conn & Hconn & Hopen).
    assert (Hall1 : forallb (can_ping (heap (world (after_ping c conn st)))) l = true).
    { apply forallb_forall. intros x Hx.
      rewrite forallb_forall in Hall. specialize (Hall x Hx).
      unfold can_ping in *. simpl. rewrite lookup_insert_ne; [exact Hall |].
      intros ->. apply Hcl. apply list_elem_of_In. exact Hx. }
    destruct (IH (after_ping c conn st) Hnd Hall1)
      as (evs & st' & Hrun & Hself & Htrace & HF & Hout & Hin).
    exists (ping_of conn :: evs), st'. split_and!.
    + simpl. rewrite run_bind, (run_send_ping_open _ _ _ Hconn Hopen). exact Hrun.
    + rewrite Hself. reflexivity.
    + rewrite Htrace. simpl. rewrite <- app_assoc. reflexivity.
    + constructor.
      * exists conn. split; [exact Hconn | reflexivity].
      * eapply Forall2_on_elements; [| exact HF].
        intros x e Hx (conn' & Hx' & ->). exists conn'. split; [| reflexivity].
        simpl in Hx'. rewrite lookup_insert_ne in Hx'; [exact Hx' |].
        intros ->. contradiction.
    + intros x Hx. apply not_elem_of_cons in Hx as [Hxc Hxl].
      rewrite (Hout x Hxl). simpl. apply lookup_insert_ne. congruence.
    + intros x connx Hx Hlook. apply elem_of_cons in Hx as [-> | Hx].
      * rewrite (Hout c Hcl). simpl. rewrite lookup_insert_eq. congruence.
      * apply Hin; [exact Hx |]. simpl. rewrite lookup_insert_ne; [exact Hlook |].
        intros ->. contradiction.
Qed.

(** A tick that meets a connection whose socket takes no frame. *)
Lemma for_each_send_ping_fails (pre post : list nat) (c : nat) st :
  NoDup (pre ++ c :: post) ->
  forallb (can_ping (heap (world st))) pre = true ->
  cannot_ping (heap (world st)) c = true ->
  exists evs st',
    for_each (pre ++ c :: post) send_ping st = (Raise WebSocketClosedError, st') /\
    self st' = self st /\
    trace (world st') = (trace (world st) ++ evs)%list /\
    Forall2 (is_ping_of (heap (world st))) pre evs /\
    (forall x, x ∈ c :: post -> heap (world st') !! x = heap (world st) !! x).
Proof.
  intros Hnd Hpre Hc.
  apply NoDup_app in Hnd as (Hnd_pre & Hdisj & _).
  destruct (for_each_send_ping_ok pre st Hnd_pre Hpre)
    as (evs & st' & Hrun & Hself & Htrace & HF & Hout & _).
  destruct (cannot_ping_spec _ _ Hc) as (conn & Hconn & Hclosed).
  assert (Hrest : forall x, x ∈ c :: post -> heap (world st') !! x = heap (world st) !! x).
  { intros x Hx. apply Hout. intros Hxpre. exact (Hdisj x Hxpre Hx). }
  exists evs, st'. split_and!; try assumption.
  rewrite for_each_app, Hrun. simpl. rewrite run_bind.
  rewrite (run_send_ping_closed c conn st'); [reflexivity | | exact Hclosed].
  rewrite Hrest; [exact Hconn |]. apply elem_of_cons. left. reflexivity.
Qed.

Lemma run_keep_alive st :
  keep_alive st = for_each (elements (_clients (self st))) send_ping st.
Proof. reflexivity. Qed.

(** C4, as stated, fails: on the example server with two clients, the
    connection 0 is in the connection set and its socket is open, but the
    tick meets the connection 1 first, whose socket is closed; the error of
    that send ends the tick, which leaves the state as it was: no ping has
    been sent to the connection 0. *)
Lemma failed_ping_ends_the_tick :
  let st := steps (example_state 37000) two_clients in
  elements (_clients (self st)) = [1; 0] /\
  can_ping (heap (world st)) 0 = true /\
  cannot_ping (heap (world st)) 1 = true /\
  keep_alive st = (Raise WebSocketClosedError, st).
Proof. vm_compute. split_and!; reflexivity. Qed.

(** C4, amended: a keep-alive tick goes through the connection set as it
    stands at the start of the tick (the loop is over the set itself, and
    nothing in the loop changes it), once over each connection.  If every
    send goes through, every connection of the set receives exactly one
    ping.  A send that fails is not caught: it ends the tick with its error,
    so that the connections before the failing one in the order of the
    iteration have received their ping and the failing one and those after it
    have received none. *)
Theorem keep_alive_pings_until_a_send_fails (st : State) :
  let cs := elements (_clients (self st)) in
  let h := heap (world st) in
  NoDup cs /\
  (forall c, c ∈ cs <-> c ∈ _clients (self st)) /\
  (forallb (can_ping h) cs = true ->
   exists evs st',
     keep_alive st = (Ok tt, st') /\
     self st' = self st /\
     trace (world st') = (trace (world st) ++ evs)%list /\
     Forall2 (is_ping_of h) cs evs /\
     (forall c conn, c ∈ _clients (self st) -> h !! c = Some conn ->
                     heap (world st') !! c = Some (pinged conn))) /\
  (forall pre c post,
     cs = (pre ++ c :: post)%list ->
     forallb (can_ping h) pre = true ->
     cannot_ping h c = true ->
     exists evs st',
       keep_alive st = (Raise WebSocketClosedError, st') /\
       self st' = self st /\
       trace (world st') = (trace (world st) ++ evs)%list /\
       Forall2 (is_ping_of h) pre evs /\
       (forall x, x ∈ c :: post -> heap (world st') !! x = h !! x)).
Proof.
  intros cs h. split_and!.
  - apply NoDup_elements.
  - intros c. apply elem_of_elements.
  - intros Hall.
    destruct (for_each_send_ping_ok cs st (NoDup_elements _) Hall)
      as (evs & st' & Hrun & Hself & Htrace & HF & _ & Hin).
    exists evs, st'. rewrite run_keep_alive. split_and!; try assumption.
    intros c conn Hc. apply Hin. apply elem_of_elements. exact Hc.
  - intros pre c post Hcs Hpre Hc.
    rewrite run_keep_alive. fold cs. rewrite Hcs.
    apply for_each_send_ping_fails; try assumption.
    rewrite <- Hcs. apply NoDup_elements.
Qed.

(** ** The theorems at work on the example server *)

Lemma host_not_in_whitelist_is_forbidden_witness :
  (host evil_request ∉ _hosts (self (example_state 37000))) /\
  resources evil_request (example_state 37000) =
    (Raise (HTTPError 403 "request host not in whitelist"),
     on_world (emit_w (Log ERROR (not_in_whitelist_message "evil.example") []))
       (example_state 37000)) /\
  _resources (self (resources evil_request (example_state 37000)).2) = ∅.
Proof.
  assert (H : host evil_request ∉ _hosts (self (example_state 37000))).
  { intros Hin. apply list_elem_of_singleton in Hin. discriminate Hin. }
  pose proof (host_not_in_whitelist_is_forbidden
                (example_state 37000) evil_request "/app/ws" H) as (_ & _ & Hres & _).
  split; [exact H |]. split; [exact Hres |]. rewrite Hres. reflexivity.
Defined.

Lemma shutdown_cleans_up_once_witness :
  _atexit_ran (self (example_state 37000)) = false /\
  via_sigterm 15 <> via_stop /\
  exists st1 st2,
    shutdown (via_sigterm 15) (example_state 37000) = (Ok tt, st1) /\
    shutdown (via_sigterm 15) st1 = (Ok tt, st2) /\
    executor_shutdowns st2 = 1 /\
    self st2 = self st1.
Proof.
  assert (H1 : _atexit_ran (self (example_state 37000)) = false) by reflexivity.
  assert (H2 : via_sigterm 15 <> via_stop) by discriminate.
  split; [exact H1 |]. split; [exact H2 |].
  destruct (shutdown_cleans_up_once (example_state 37000) (via_sigterm 15) (via_sigterm 15)
              H1 H2) as (st1 & st2 & Hr1 & Hr2 & He1 & _ & _ & He2 & Hs & _).
  exists st1, st2. split; [exact Hr1 |]. split; [exact Hr2 |].
  split; [| exact Hs]. rewrite He2, He1. reflexivity.
Defined.

Lemma get_session_registered_or_not_witness :
  ("/nope" ∉ dom (_applications (self (example_state 37000)))) /\
  _applications (self (example_state 37000)) !! "/app" = Some (ApplicationContext_new "app" 7) /\
  get_session "/nope" "s1" (example_state 37000) =
    (Raise (ValueError "Application /nope does not exist on this server"),
     example_state 37000) /\
  exists s st', get_session "/app" "s1" (example_state 37000) = (Ok s, st') /\
                s = new_session 0 "s1".
Proof.
  assert (H1 : "/nope" ∉ dom (_applications (self (example_state 37000)))).
  { apply not_elem_of_dom. vm_compute. reflexivity. }
  assert (H2 : _applications (self (example_state 37000)) !! "/app" =
               Some (ApplicationContext_new "app" 7)).
  { vm_compute. reflexivity. }
  destruct (get_session_registered_or_not (example_state 37000) "/nope" "s1") as [Hno _].
  destruct (get_session_registered_or_not (example_state 37000) "/app" "s1") as [_ Hyes].
  destruct (Hyes _ H2) as (s & ctx' & Hrun & _ & _ & _ & Hnew).
  split; [exact H1 |]. split; [exact H2 |]. split; [exact (Hno H1) |].
  exists s. eexists. split; [exact Hrun |].
  apply Hnew. left. reflexivity.
Defined.

Lemma keep_alive_pings_until_a_send_fails_witness :
  forallb (can_ping (heap (world (steps (example_state 37000) two_open_clients))))
    (elements (_clients (self (steps (example_state 37000) two_open_clients)))) = true /\
  (exists st', keep_alive (steps (example_state 37000) two_open_clients) = (Ok tt, st')) /\
  elements (_clients (self (steps (example_state 37000) two_clients))) = ([] ++ 1 :: [0])%list /\
  cannot_ping (heap (world (steps (example_state 37000) two_clients))) 1 = true /\
  (exists st', keep_alive (steps (example_state 37000) two_clients) =
                 (Raise WebSocketClosedError, st')).
Proof.
  assert (H1 : forallb (can_ping (heap (world (steps (example_state 37000) two_open_clients))))
    (elements (_clients (self (steps (example_state 37000) two_open_clients)))) = true).
  { vm_compute. reflexivity. }
  assert (H2 : elements (_clients (self (steps (example_state 37000) two_clients))) =
               ([] ++ 1 :: [0])%list).
  { vm_compute. reflexivity. }
  assert (H3 : cannot_ping (heap (world (steps (example_state 37000) two_clients))) 1 = true).
  { vm_compute. reflexivity. }
  destruct (keep_alive_pings_until_a_send_fails (steps (example_state 37000) two_open_clients))
    as (_ & _ & Hok & _).
  destruct (keep_alive_pings_until_a_send_fails (steps (example_state 37000) two_clients))
    as (_ & _ & _ & Hfail).
  destruct (Hok H1) as (evs & st' & Hrun & _).
  destruct (Hfail [] 1 [0] H2 eq_refl H3) as (evs2 & st2 & Hrun2 & _).
  split; [exact H1 |]. split; [exists st'; exact Hrun |].
  split; [exact H2 |]. split; [exact H3 |]. exists st2. exact Hrun2.
Defined.

Lemma keep_alive_job_follows_interval_witness :
  example_init 37000 = (Ok (example_server 37000), example_init_world) /\
  (0 < 37000)%Z /\
  (exists pj, _ping_job (example_server 37000) = Some pj /\ callback_time pj = 37000%Z /\
              PC_start pj ∈ start_events (self (steps (example_state 37000) two_clients)) Returned /\
              PC_stop pj ∈ stop_events (self (steps (example_state 37000) two_clients))) /\
  example_init 0 = (Ok (example_server 0), example_init_world) /\
  _ping_job (self (steps (example_state 0) two_clients)) = None.
Proof.
  assert (H1 : example_init 37000 = (Ok (example_server 37000), example_init_world)).
  { vm_compute. reflexivity. }
  assert (H2 : (0 < 37000)%Z) by reflexivity.
  assert (H3 : example_init 0 = (Ok (example_server 0), example_init_world)).
  { vm_compute. reflexivity. }
  destruct (keep_alive_job_follows_interval _ _ _ _ _ _ _ _ _ _ _ _ two_clients Returned H1)
    as (_ & _ & _ & Hpos).
  destruct (keep_alive_job_follows_interval _ _ _ _ _ _ _ _ _ _ _ _ two_clients Returned H3)
    as (_ & _ & Hzero & _).
  destruct (Hpos H2) as (pj & Hpj & _ & _ & Htime & Hstart & Hstop).
  destruct (Hzero eq_refl) as (_ & Hnone & _).
  split; [exact H1 |]. split; [exact H2 |].
  split; [exists pj; split_and!; assumption |].
  split; [exact H3 | exact Hnone].
Defined.

Lemma negative_keep_alive_rejected_witness :
  (-1 < 0)%Z /\
  (exists w',
     example_init (-1) =
       (Raise (ValueError "keep_alive_milliseconds must be >= 0"), w') /\
     trace w' = []) /\
  (example_init 0).1 <> Raise (ValueError "keep_alive_milliseconds must be >= 0").
Proof.
  assert (H1 : (-1 < 0)%Z) by reflexivity.
  destruct (negative_keep_alive_rejected example_per_app_patterns example_toplevel_patterns []
              example_applications ["good.example"] (Some 7) None (-1) 0 example_world)
    as [Hneg _].
  destruct (negative_keep_alive_rejected example_per_app_patterns example_toplevel_patterns []
              example_applications ["good.example"] (Some 7) None 0 0 example_world)
    as [_ Hzero].
  destruct (Hneg H1) as (w' & Hrun & Htrace & _).
  destruct (Hzero eq_refl) as [Hnot _].
  split; [exact H1 |]. split; [| exact Hnot].
  exists w'. split; [exact Hrun | exact Htrace].
Defined.

Lemma client_lost_is_idempotent_witness :
  (exists st1,
     client_lost 0 (steps (example_state 37000) two_clients) = (Ok tt, st1) /\
     elements (_clients (self st1)) = [1] /\
     client_lost 0 st1 = (Ok tt, st1)) /\
  (5 ∉ _clients (self (example_state 37000))) /\
  detached 5 (example_state 37000) /\
  client_lost 5 (example_state 37000) = (Ok tt, example_state 37000) /\
  ~ detached 0 (steps (example_state 37000) two_clients_then_exit) /\
  (client_lost 0 (steps (example_state 37000) two_clients_then_exit)).2 <>
    steps (example_state 37000) two_clients_then_exit.
Proof.
  assert (H1 : 5 ∉ _clients (self (example_state 37000))) by apply not_elem_of_empty.
  assert (H2 : detached 5 (example_state 37000)) by exact I.
  assert (H3 : ~ detached 0 (steps (example_state 37000) two_clients_then_exit)).
  { intros Hd. vm_compute in Hd. discriminate Hd. }
  destruct (client_lost_is_idempotent (steps (example_state 37000) two_clients) 0)
    as (st1 & Hrun & Hcl & _ & _ & Hagain & _).
  destruct (client_lost_is_idempotent (example_state 37000) 5)
    as (st5 & Hrun5 & _ & _ & _ & _ & Hnoop & _).
  destruct (client_lost_is_idempotent (steps (example_state 37000) two_clients_then_exit) 0)
    as (st0 & Hrun0 & _ & _ & _ & _ & _ & Hchanged & _).
  split_and!.
  - exists st1. split; [exact Hrun |]. split; [| exact Hagain].
    rewrite Hcl. vm_compute. reflexivity.
  - exact H1.
  - exact H2.
  - rewrite Hrun5, (Hnoop H1 H2). reflexivity.
  - exact H3.
  - rewrite Hrun0. exact (Hchanged H3).
Defined.

Lemma resource_cache_is_a_growing_memo_witness :
  (host good_request ∈ _hosts (self (example_state 37000))) /\
  exists r st1,
    resources good_request (example_state 37000) = (Ok r, st1) /\
    r = {| res_id := 0; mode := "server"; root_url := "http://good.example/" |} /\
    resources good_request (steps st1 two_clients) = (Ok r, steps st1 two_clients).
Proof.
  assert (H : host good_request ∈ _hosts (self (example_state 37000))).
  { apply list_elem_of_singleton. reflexivity. }
  destruct (resource_cache_is_a_growing_memo (example_state 37000) good_request good_request
              two_clients H eq_refl eq_refl)
    as ((r & st1 & Hrun & _ & _ & _ & Hnew & Hagain) & _).
  split; [exact H |]. exists r, st1. split; [exact Hrun |]. split; [| exact Hagain].
  apply Hnew. vm_compute. reflexivity.
Defined.

Lemma stop_touches_only_jobs_and_loop_witness :
  _atexit_ran (self (example_state 37000)) = false /\
  is_cleanup_path (op_client_lost 0) = false /\
  (exists st', stop (steps (example_state 37000) two_clients) = (Ok tt, st') /\
               elements (_clients (self st')) = [1; 0]) /\
  _clients (self (exited (example_state 37000))) = ∅.
Proof.
  assert (H1 : _atexit_ran (self (example_state 37000)) = false) by reflexivity.
  assert (H2 : is_cleanup_path (op_client_lost 0) = false) by reflexivity.
  destruct (stop_touches_only_jobs_and_loop (steps (example_state 37000) two_clients))
    as ((st' & Hrun & _ & Hcl & _) & _).
  destruct (stop_touches_only_jobs_and_loop (example_state 37000))
    as (_ & _ & Hexit & _).
  destruct (Hexit H1) as (_ & Hempty & _).
  split; [exact H1 |]. split; [exact H2 |].
  split; [| exact Hempty].
  exists st'. split; [exact Hrun |]. rewrite Hcl. vm_compute. reflexivity.
Defined.

(** * Further properties of the code *)

(** ** Suffixes *)

Lemma substring_all (s : string) : String.substring 0 (String.length s) s = s.
Proof. induction s as [| a s IH]; simpl; [reflexivity | rewrite IH; reflexivity]. Qed.

Lemma substring_skip (pre s : string) (m : nat) :
  String.substring (String.length pre) m (pre ++ s) = String.substring 0 m s.
Proof. induction pre as [| a pre IH]; simpl; [reflexivity | exact IH]. Qed.

Lemma length_append (s1 s2 : string) :
  String.length (s1 ++ s2) = (String.length s1 + String.length s2)%nat.
Proof. induction s1 as [| a s1 IH]; simpl; [reflexivity | rewrite IH; reflexivity]. Qed.

Lemma endswith_append (pre suffix : string) : endswith (pre ++ suffix) suffix = true.
Proof.
  unfold endswith. rewrite length_append.
  destruct (Nat.leb_spec (String.length suffix) (String.length pre + String.length suffix)) as [_ | H]; [| lia].
  replace (String.length pre + String.length suffix - String.length suffix)%nat
    with (String.length pre) by lia.
  rewrite substring_skip, substring_all. apply String.eqb_refl.
Qed.

Lemma substring_split (s : string) (n : nat) :
  (n <= String.length s)%nat ->
  s = String.substring 0 n s ++ String.substring n (String.length s - n) s.
Proof.
  revert n. induction s as [| a s IH]; intros n Hn; simpl in *.
  - destruct n; reflexivity.
  - destruct n as [| n]; simpl.
    + rewrite substring_all. reflexivity.
    + transitivity (String a (String.substring 0 n s ++
                                String.substring n (String.length s - n) s)).
      * f_equal. apply IH. lia.
      * reflexivity.
Qed.

Lemma endswith_spec (s suffix : string) :
  endswith s suffix = true <-> exists pre, s = pre ++ suffix.
Proof.
  split.
  - unfold endswith. intros H.
    destruct (Nat.leb_spec (String.length suffix) (String.length s)) as [Hle | Hgt];
      [| discriminate].
    apply String.eqb_eq in H.
    exists (String.substring 0 (String.length s - String.length suffix) s).
    pose proof (substring_split s (String.length s - String.length suffix)) as Hs.
    replace (String.length s - (String.length s - String.length suffix))%nat
      with (String.length suffix) in Hs by lia.
    rewrite H in Hs. apply Hs. lia.
  - intros [pre ->]. apply endswith_append.
Qed.
(** ** The routes the constructor builds *)

Lemma string_append_assoc (s1 s2 s3 : string) : (s1 ++ s2) ++ s3 = s1 ++ (s2 ++ s3).
Proof.
  induction s1 as [| a s1 IH]; [reflexivity |].
  change (String a ((s1 ++ s2) ++ s3) = String a (s1 ++ (s2 ++ s3))).
  rewrite IH. reflexivity.
Qed.

Lemma endswith_nonempty (s suffix : string) :
  endswith s suffix = true -> suffix <> EmptyString -> s <> EmptyString.
Proof.
  intros H Hs ->. apply endswith_spec in H as [pre H].
  destruct pre; [| discriminate H].
  apply Hs. symmetry. exact H.
Qed.

Section RouteFacts.

Variable per_app_patterns : list (string * Handler).

Local Abbreviation find_ws := find_websocket_path.
Local Abbreviation routes_for := (app_patterns_for per_app_patterns).

Lemma find_websocket_path_acc (ps : list Pattern) (acc : option string) :
  fold_left (fun acc r => if endswith (route r) "/ws" then Some (route r) else acc) ps acc
  = match find_ws ps with
    | Some w => Some w
    | None => acc
    end.
Proof.
  unfold find_websocket_path. revert acc.
  induction ps as [| r ps IH]; intros acc; simpl; [reflexivity |].
  rewrite IH. rewrite (IH (if endswith (route r) "/ws" then Some (route r) else None)).
  destruct (fold_left _ ps None); [reflexivity |].
  destruct (endswith (route r) "/ws"); reflexivity.
Qed.

Lemma find_websocket_path_cons (r : Pattern) (ps : list Pattern) :
  find_ws (r :: ps) =
  match find_ws ps with
  | Some w => Some w
  | None => if endswith (route r) "/ws" then Some (route r) else None
  end.
Proof.
  unfold find_websocket_path at 1. simpl. apply find_websocket_path_acc.
Qed.

Lemma find_websocket_path_Some (ps : list Pattern) (w : string) :
  find_ws ps = Some w ->
  exists r, r ∈ ps /\ route r = w /\ endswith w "/ws" = true.
Proof.
  induction ps as [| r ps IH]; [discriminate |].
  rewrite find_websocket_path_cons.
  destruct (find_ws ps) as [w' |].
  - intros [= ->]. destruct (IH eq_refl) as (r' & Hin & Hr & Hw).
    exists r'. split; [apply elem_of_cons; right; exact Hin | auto].
  - destruct (endswith (route r) "/ws") eqn:He; [| discriminate].
    intros [= <-]. exists r. split; [apply elem_of_cons; left; reflexivity | auto].
Qed.

Lemma find_websocket_path_None (ps : list Pattern) :
  find_ws ps = None <-> forall r, r ∈ ps -> endswith (route r) "/ws" = false.
Proof.
  induction ps as [| r ps IH].
  - split; [intros _ r Hr; inversion Hr | reflexivity].
  - rewrite find_websocket_path_cons. split.
    + destruct (find_ws ps) as [w |]; [discriminate |].
      destruct (endswith (route r) "/ws") eqn:He; [discriminate |].
      intros _ r' Hr'. apply elem_of_cons in Hr' as [-> | Hr']; [exact He |].
      apply IH; [reflexivity | exact Hr'].
    + intros H.
      rewrite (proj2 IH) by (intros r' Hr'; apply H; apply elem_of_cons; right; exact Hr').
      rewrite H by (apply elem_of_cons; left; reflexivity). reflexivity.
Qed.

End RouteFacts.

Section RelativePatterns.

Variable per_app_patterns : list (string * Handler).

Local Abbreviation routes_for := (app_patterns_for per_app_patterns).
Local Abbreviation relative := (relative_patterns_for per_app_patterns).

Lemma app_patterns_for_kwargs key r :
  r ∈ routes_for key ->
  kwargs r = Some {| application_context := key; bokeh_websocket_path := None |} /\
  exists p, p ∈ per_app_patterns /\ handler r = p.2 /\
            route r = (if String.eqb key "/" then p.1 else key ++ p.1).
Proof.
  unfold app_patterns_for. intros Hr. apply list_elem_of_fmap in Hr as (p & -> & Hp).
  simpl. split; [reflexivity |]. exists p. auto.
Qed.

Lemma relative_patterns_for_cons key keys :
  relative (key :: keys) =
  match find_websocket_path (routes_for key) with
  | None | Some EmptyString => Raise (RuntimeError "Couldn't find websocket path")
  | Some websocket_path =>
      match relative keys with
      | Ok ps => Ok ((set_websocket_path websocket_path <$> routes_for key) ++ ps)%list
      | Raise e => Raise e
      end
  end.
Proof. reflexivity. Qed.

Lemma relative_patterns_for_Raise keys e :
  relative keys = Raise e -> e = RuntimeError "Couldn't find websocket path".
Proof.
  induction keys as [| key keys IH]; [discriminate |].
  rewrite relative_patterns_for_cons.
  destruct (find_websocket_path (routes_for key)) as [[| a w] |]; try (intros [= <-]; reflexivity).
  destruct (relative keys); [discriminate |]. intros [= <-]. apply IH. reflexivity.
Qed.

Lemma relative_patterns_for_with_ws keys :
  (exists p, p ∈ per_app_patterns /\ endswith p.1 "/ws" = true) ->
  exists rel, relative keys = Ok rel.
Proof.
  intros (p & Hp & Hends). induction keys as [| key keys IH]; [eexists; reflexivity |].
  rewrite relative_patterns_for_cons.
  destruct (find_websocket_path (routes_for key)) as [w |] eqn:Hw.
  - destruct (find_websocket_path_Some _ _ Hw) as (_ & _ & _ & He).
    assert (Hne : w <> EmptyString) by (eapply endswith_nonempty; [exact He | discriminate]).
    destruct w as [| a w]; [congruence |].
    destruct IH as [ps ->]. eexists. reflexivity.
  - exfalso. rewrite find_websocket_path_None in Hw.
    specialize (Hw {| route := if String.eqb key "/" then p.1 else key ++ p.1;
                      handler := p.2;
                      kwargs := Some {| application_context := key;
                                        bokeh_websocket_path := None |} |}).
    assert (Hin : {| route := if String.eqb key "/" then p.1 else key ++ p.1;
                      handler := p.2;
                      kwargs := Some {| application_context := key;
                                        bokeh_websocket_path := None |} |}
                  ∈ routes_for key).
    { unfold app_patterns_for. apply list_elem_of_fmap. exists p. split; [reflexivity | exact Hp]. }
    specialize (Hw Hin). simpl in Hw.
    apply endswith_spec in Hends as [pre Hpre].
    destruct (String.eqb key "/").
    + rewrite Hpre, endswith_append in Hw. discriminate.
    + rewrite Hpre, <- string_append_assoc, endswith_append in Hw. discriminate.
Qed.

Lemma relative_patterns_for_without_ws keys key :
  key ∈ keys ->
  (forall p, p ∈ per_app_patterns ->
     endswith (if String.eqb key "/" then p.1 else key ++ p.1) "/ws" = false) ->
  relative keys = Raise (RuntimeError "Couldn't find websocket path").
Proof.
  intros Hkey Hno.
  assert (Hfind : find_websocket_path (routes_for key) = None).
  { apply find_websocket_path_None. intros r Hr.
    destruct (app_patterns_for_kwargs _ _ Hr) as (_ & p & Hp & _ & ->). apply Hno, Hp. }
  induction keys as [| key0 keys IH]; [inversion Hkey |].
  rewrite relative_patterns_for_cons.
  destruct (find_websocket_path (routes_for key0)) as [[| a w] |] eqn:Hw0; try reflexivity.
  apply elem_of_cons in Hkey as [<- | Hkey]; [congruence |].
  rewrite (IH Hkey). reflexivity.
Qed.

End RelativePatterns.

Lemma find_websocket_path_last (ps : list Pattern) (w : string) :
  find_websocket_path ps = Some w ->
  exists pre r post,
    ps = (pre ++ r :: post)%list /\ route r = w /\ endswith w "/ws" = true /\
    forall q, q ∈ post -> endswith (route q) "/ws" = false.
Proof.
  revert w. induction ps as [| r ps IH]; intros w; [discriminate |].
  rewrite find_websocket_path_cons.
  destruct (find_websocket_path ps) as [w' |] eqn:Hps.
  - intros [= ->]. destruct (IH w eq_refl) as (pre & r0 & post & -> & Hr & He & Hpost).
    exists (r :: pre), r0, post. split_and!; auto.
  - destruct (endswith (route r) "/ws") eqn:He; [| discriminate].
    intros [= <-]. exists [], r, ps. split_and!; auto.
    apply find_websocket_path_None. exact Hps.
Qed.

Section ExactRoutes.

Variable per_app_patterns : list (string * Handler).

Lemma routes_of_app_patterns_for key w :
  set_websocket_path w <$> app_patterns_for per_app_patterns key =
  routes_of per_app_patterns key w.
Proof.
  unfold app_patterns_for, routes_of. rewrite <- list_fmap_compose.
  apply list_fmap_ext. intros i p _. reflexivity.
Qed.

Lemma websocket_path_of_find key w :
  find_websocket_path (app_patterns_for per_app_patterns key) = Some w ->
  websocket_path_of per_app_patterns key w.
Proof.
  intros H. destruct (find_websocket_path_last _ _ H) as (pre & r & post & Hps & Hr & He & Hpost).
  unfold app_patterns_for in Hps.
  apply fmap_app_inv in Hps as (l1 & l2 & -> & Hl2 & ->).
  symmetry in Hl2. apply fmap_cons_inv in Hl2 as (p & l3 & -> & -> & ->).
  exists l1, p, l3. split_and!.
  - reflexivity.
  - simpl in Hr. symmetry. exact Hr.
  - exact He.
  - intros q Hq. apply (Hpost _ (list_elem_of_fmap_2 _ _ _ Hq)).
Qed.

Lemma relative_patterns_for_exact keys rel :
  relative_patterns_for per_app_patterns keys = Ok rel ->
  exists paths,
    Forall2 (websocket_path_of per_app_patterns) keys paths /\
    rel = mjoin (zip_with (routes_of per_app_patterns) keys paths).
Proof.
  revert rel. induction keys as [| key keys IH]; intros rel.
  - intros [= <-]. exists []. split; [constructor | reflexivity].
  - rewrite relative_patterns_for_cons.
    destruct (find_websocket_path (app_patterns_for per_app_patterns key)) as [w |] eqn:Hw;
      [| discriminate].
    pose proof (websocket_path_of_find _ _ Hw) as Hpath.
    destruct w as [| a w]; [discriminate |].
    destruct (relative_patterns_for per_app_patterns keys) as [ps | e]; [| discriminate].
    intros [= <-]. destruct (IH ps eq_refl) as (paths & HF & ->).
    exists (String a w :: paths). split; [constructor; assumption |].
    simpl. rewrite routes_of_app_patterns_for. reflexivity.
Qed.

Lemma relative_patterns_for_Raise_key keys e :
  relative_patterns_for per_app_patterns keys = Raise e ->
  exists key, key ∈ keys /\
    forall p, p ∈ per_app_patterns -> endswith (route_for key p.1) "/ws" = false.
Proof.
  induction keys as [| key keys IH]; [discriminate |].
  rewrite relative_patterns_for_cons.
  destruct (find_websocket_path (app_patterns_for per_app_patterns key)) as [w |] eqn:Hw.
  - destruct (find_websocket_path_Some _ _ Hw) as (_ & _ & _ & He).
    destruct w as [| a w]; [discriminate He |].
    destruct (relative_patterns_for per_app_patterns keys) as [ps | e']; [discriminate |].
    intros Heq. destruct (IH Heq) as (key' & Hkey & Hno).
    exists key'. split; [apply elem_of_cons; right; exact Hkey | exact Hno].
  - intros _. exists key. split; [apply elem_of_cons; left; reflexivity |].
    intros p Hp. rewrite find_websocket_path_None in Hw.
    apply (Hw {| route := route_for key p.1; handler := p.2;
                 kwargs := Some {| application_context := key;
                                   bokeh_websocket_path := None |} |}).
    unfold app_patterns_for. apply list_elem_of_fmap. exists p. split; [reflexivity | exact Hp].
Qed.

End ExactRoutes.


(** ** What the constructor returns *)

Section ConstructorResults.

Variable per_app_patterns : list (string * Handler).
Variable toplevel_patterns : list Pattern.
Variable settings : list (string * string).

Local Abbreviation init := (__init__ per_app_patterns toplevel_patterns settings).

Lemma init_inversion applications hosts io_loop extra_patterns k current w srv w' :
  init applications hosts io_loop extra_patterns k current w = (Ok srv, w') ->
  (0 <= k)%Z /\
  exists rel,
    relative_patterns_for per_app_patterns (map_to_list applications).*1 = Ok rel /\
    handlers srv = (default [] extra_patterns ++ rel ++ toplevel_patterns)%list /\
    _applications srv =
      (fun v => ApplicationContext_new v (default current io_loop)) <$> applications /\
    w' = add_events
           [Log DEBUG "Patterns are: %r" [ArgPatterns (handlers srv)];
            TornadoApplication_init (handlers srv) settings;
            Executor_new 4;
            Loop_add_callback (default current io_loop) m_start_async]
           (add_events (before_keep_alive_check io_loop) w).
Proof.
  unfold __init__. intros H.
  destruct (Z.ltb_spec k 0) as [Hk | Hk].
  { destruct io_loop; simpl in H; discriminate. }
  split; [exact Hk |].
  destruct (relative_patterns_for per_app_patterns (map_to_list applications).*1)
    as [rel | e] eqn:Hrel.
  - exists rel. split; [reflexivity |].
    destruct io_loop as [l |]; simpl in H; inversion H; subst; simpl;
      split_and!; try reflexivity;
      unfold add_events, emit_w, set_trace; simpl; rewrite <- ?app_assoc, ?app_nil_r;
      reflexivity.
  - destruct io_loop; simpl in H; discriminate.
Qed.

Lemma init_raises applications hosts io_loop extra_patterns k current w e :
  (0 <= k)%Z ->
  relative_patterns_for per_app_patterns (map_to_list applications).*1 = Raise e ->
  init applications hosts io_loop extra_patterns k current w =
  (Raise e, add_events (before_keep_alive_check io_loop) w).
Proof.
  intros Hk Hrel. unfold __init__.
  assert (Hlt : (k <? 0)%Z = false) by (apply Z.ltb_ge; exact Hk).
  destruct io_loop as [l |]; simpl; rewrite Hlt, Hrel; [| reflexivity].
  f_equal. destruct w. unfold add_events, set_trace. simpl. rewrite app_nil_r. reflexivity.
Qed.

Lemma init_returns applications hosts io_loop extra_patterns k current w rel :
  (0 <= k)%Z ->
  relative_patterns_for per_app_patterns (map_to_list applications).*1 = Ok rel ->
  exists srv w', init applications hosts io_loop extra_patterns k current w = (Ok srv, w').
Proof.
  intros Hk Hrel. unfold __init__.
  assert (Hlt : (k <? 0)%Z = false) by (apply Z.ltb_ge; exact Hk).
  destruct io_loop as [l |]; simpl; rewrite Hlt, Hrel; eexists _, _; reflexivity.
Qed.

End ConstructorResults.

Lemma elem_of_map_keys {A} (m : gmap string A) (key : string) :
  key ∈ (map_to_list m).*1 <-> is_Some (m !! key).
Proof.
  split.
  - intros H. apply list_elem_of_fmap in H as ([k v] & -> & Hkv).
    apply elem_of_map_to_list in Hkv. simpl. eauto.
  - intros [v Hv]. apply list_elem_of_fmap. exists (key, v).
    split; [reflexivity | apply elem_of_map_to_list; exact Hv].
Qed.

(** X1: when the constructor succeeds, the routes it hands to tornado are
    the extra patterns, then the routes of the applications, then the
    top-level patterns.  The routes of the applications are, for each
    registered application once (in the order in which the dictionary is
    walked), one route for every per-application pattern, in the order of
    these patterns: the pattern with the key of the application in front
    (nothing in front for the key [/]), with the handler of the pattern and a
    keyword dictionary that holds the key and the websocket path of the
    application, which is the last of its routes that ends with [/ws]. *)
Theorem constructor_routes
    per_app_patterns toplevel_patterns settings
    applications hosts io_loop extra_patterns k current w srv w' :
  __init__ per_app_patterns toplevel_patterns settings
    applications hosts io_loop extra_patterns k current w = (Ok srv, w') ->
  exists keys paths,
    NoDup keys /\
    (forall key, key ∈ keys <-> is_Some (applications !! key)) /\
    Forall2 (websocket_path_of per_app_patterns) keys paths /\
    handlers srv =
      (default [] extra_patterns ++
       mjoin (zip_with (routes_of per_app_patterns) keys paths) ++
       toplevel_patterns)%list /\
    TornadoApplication_init (handlers srv) settings ∈ trace w'.
Proof.
  intros Hinit.
  destruct (init_inversion _ _ _ _ _ _ _ _ _ _ _ _ Hinit) as (_ & rel & Hrel & Hh & _ & ->).
  destruct (relative_patterns_for_exact _ _ _ Hrel) as (paths & HF & ->).
  exists (map_to_list applications).*1, paths. split_and!.
  - apply NoDup_fst_map_to_list.
  - intros key. apply elem_of_map_keys.
  - exact HF.
  - exact Hh.
  - simpl. rewrite !elem_of_app, !elem_of_cons. right. right. left. reflexivity.
Qed.

(** X2: the constructor raises [RuntimeError("Couldn't find websocket
    path")] only when the interval is not negative and one of the
    applications has no route that ends with [/ws]; so it never raises it
    when no application is given, nor when one of the per-application
    patterns ends with [/ws]. *)
Theorem constructor_runtime_error_only_without_websocket_route
    per_app_patterns toplevel_patterns settings
    applications hosts io_loop extra_patterns k current w :
  ((__init__ per_app_patterns toplevel_patterns settings
      applications hosts io_loop extra_patterns k current w).1 =
   Raise (RuntimeError "Couldn't find websocket path") ->
   (0 <= k)%Z /\
   exists key, is_Some (applications !! key) /\
     forall p, p ∈ per_app_patterns -> endswith (route_for key p.1) "/ws" = false) /\
  (applications = ∅ \/ (exists p, p ∈ per_app_patterns /\ endswith p.1 "/ws" = true) ->
   (__init__ per_app_patterns toplevel_patterns settings
      applications hosts io_loop extra_patterns k current w).1 <>
   Raise (RuntimeError "Couldn't find websocket path")).
Proof.
  assert (Hmain :
    (__init__ per_app_patterns toplevel_patterns settings
      applications hosts io_loop extra_patterns k current w).1 =
    Raise (RuntimeError "Couldn't find websocket path") ->
    (0 <= k)%Z /\
    exists key, is_Some (applications !! key) /\
      forall p, p ∈ per_app_patterns -> endswith (route_for key p.1) "/ws" = false).
  { intros H. destruct (Z.lt_ge_cases k 0) as [Hneg | Hk].
    - rewrite (init_negative per_app_patterns toplevel_patterns settings _ _ _ _ _ _ _ Hneg) in H.
      discriminate H.
    - split; [exact Hk |].
      destruct (relative_patterns_for per_app_patterns (map_to_list applications).*1)
        as [rel | e] eqn:Hrel.
      + destruct (init_returns per_app_patterns toplevel_patterns settings applications hosts
                    io_loop extra_patterns k current w rel Hk Hrel) as (srv & w' & Hok).
        rewrite Hok in H. discriminate H.
      + destruct (relative_patterns_for_Raise_key _ _ _ Hrel) as (key & Hkey & Hno).
        exists key. split; [apply elem_of_map_keys; exact Hkey | exact Hno]. }
  split; [exact Hmain |].
  intros Hcase H. destruct (Hmain H) as (_ & key & Hkey & Hno).
  destruct Hcase as [-> | (p & Hp & He)].
  - rewrite lookup_empty in Hkey. destruct Hkey as [? Hkey]. discriminate Hkey.
  - specialize (Hno p Hp). apply endswith_spec in He as [pre Hpre].
    unfold route_for in Hno. destruct (String.eqb key "/").
    + rewrite Hpre, endswith_append in Hno. discriminate.
    + rewrite Hpre, <- string_append_assoc, endswith_append in Hno. discriminate.
Qed.

(** X3: with an interval that is not negative, if for one of the
    applications no route ends with [/ws], the constructor raises
    [RuntimeError("Couldn't find websocket path")]; by then it has at most
    asked for the current loop: no route is handed to tornado, no executor
    is made and nothing is registered with the loop. *)
Theorem constructor_fails_without_websocket_route
    per_app_patterns toplevel_patterns settings
    applications hosts io_loop extra_patterns k current w key :
  (0 <= k)%Z ->
  is_Some (applications !! key) ->
  (forall p, p ∈ per_app_patterns ->
     endswith (if String.eqb key "/" then p.1 else key ++ p.1) "/ws" = false) ->
  __init__ per_app_patterns toplevel_patterns settings
    applications hosts io_loop extra_patterns k current w =
  (Raise (RuntimeError "Couldn't find websocket path"),
   add_events (before_keep_alive_check io_loop) w).
Proof.
  intros Hk Hkey Hno. apply init_raises; [exact Hk |].
  eapply relative_patterns_for_without_ws; [apply elem_of_map_keys; exact Hkey | exact Hno].
Qed.

Lemma constructor_routes_witness :
  example_init 37000 = (Ok (example_server 37000), example_init_world) /\
  exists keys paths,
    (forall key, key ∈ keys <-> is_Some (example_applications !! key)) /\
    handlers (example_server 37000) =
      ([] ++ mjoin (zip_with (routes_of example_per_app_patterns) keys paths) ++
       example_toplevel_patterns)%list.
Proof.
  assert (H : example_init 37000 = (Ok (example_server 37000), example_init_world)).
  { vm_compute. reflexivity. }
  split; [exact H |].
  destruct (constructor_routes _ _ _ _ _ _ _ _ _ _ _ _ H) as (keys & paths & _ & Hkeys & _ & Hh & _).
  exists keys, paths. split; [exact Hkeys | exact Hh].
Defined.

Lemma constructor_runtime_error_only_without_websocket_route_witness :
  (exists p, p ∈ example_per_app_patterns /\ endswith p.1 "/ws" = true) /\
  (example_init 0).1 <> Raise (RuntimeError "Couldn't find websocket path") /\
  (__init__ no_websocket_patterns example_toplevel_patterns []
     example_applications ["good.example"] (Some 7) None 37000 0 example_world).1 =
    Raise (RuntimeError "Couldn't find websocket path") /\
  exists key, is_Some (example_applications !! key) /\
    forall p, p ∈ no_websocket_patterns -> endswith (route_for key p.1) "/ws" = false.
Proof.
  assert (H1 : exists p, p ∈ example_per_app_patterns /\ endswith p.1 "/ws" = true).
  { exists ("/ws", "WSHandler"). split; [| reflexivity].
    apply elem_of_cons. right. apply elem_of_cons. left. reflexivity. }
  assert (H2 : (__init__ no_websocket_patterns example_toplevel_patterns []
     example_applications ["good.example"] (Some 7) None 37000 0 example_world).1 =
    Raise (RuntimeError "Couldn't find websocket path")).
  { vm_compute. reflexivity. }
  destruct (constructor_runtime_error_only_without_websocket_route example_per_app_patterns
              example_toplevel_patterns [] example_applications ["good.example"] (Some 7)
              None 0 0 example_world) as [_ Hnever].
  destruct (constructor_runtime_error_only_without_websocket_route no_websocket_patterns
              example_toplevel_patterns [] example_applications ["good.example"] (Some 7)
              None 37000 0 example_world) as [Honly _].
  destruct (Honly H2) as (_ & Hkey).
  split; [exact H1 |]. split; [exact (Hnever (or_intror H1)) |].
  split; [exact H2 | exact Hkey].
Defined.

Lemma constructor_fails_without_websocket_route_witness :
  (0 <= 37000)%Z /\
  is_Some (example_applications !! "/app") /\
  __init__ no_websocket_patterns example_toplevel_patterns []
    example_applications ["good.example"] (Some 7) None 37000 0 example_world =
  (Raise (RuntimeError "Couldn't find websocket path"), example_world).
Proof.
  assert (H1 : (0 <= 37000)%Z) by (vm_compute; discriminate).
  assert (H2 : is_Some (example_applications !! "/app")).
  { exists "app". vm_compute. reflexivity. }
  assert (H3 : forall p, p ∈ no_websocket_patterns ->
            endswith (if String.eqb "/app" "/" then p.1 else "/app" ++ p.1) "/ws" = false).
  { intros p Hp. apply elem_of_cons in Hp as [-> | Hp]; [reflexivity |].
    apply list_elem_of_singleton in Hp as ->. reflexivity. }
  split; [exact H1 |]. split; [exact H2 |].
  rewrite (constructor_fails_without_websocket_route no_websocket_patterns
             example_toplevel_patterns [] example_applications ["good.example"] (Some 7)
             None 37000 0 example_world "/app" H1 H2 H3).
  reflexivity.
Defined.

(** ** More frame rules *)

Ltac unfold_methods_keep_fresh :=
  unfold root_url_for_request, websocket_url_for_request, resources, start, stop,
    new_connection, client_lost, get_session, cleanup_sessions, log_stats, keep_alive,
    run_in_background, _start_async, self_exit, call, _atexit, _sigterm, _cleanup,
    _check_host_whitelist, ApplicationContext_get_session, ServerConnection_new,
    detach_session, send_ping, update_session, store_connection, Resources_new,
    PeriodicCallback_start, PeriodicCallback_stop, IOLoop_start, IOLoop_stop,
    stop, log, print, emit.

Ltac preserves_fresh_tac refl trans prim :=
  repeat lazymatch goal with
    | |- preserves _ fresh => prim
    | |- preserves _ (ret _) => apply (preserves_ret _ refl)
    | |- preserves _ (mret _) => apply (preserves_ret _ refl)
    | |- preserves _ (raise _) => apply (preserves_raise _ refl)
    | |- preserves _ (gets _) => apply (preserves_gets _ refl)
    | |- preserves _ (asks _) => apply (preserves_asks _ refl)
    | |- preserves _ (for_each _ _) => apply (preserves_for_each _ refl trans); intros ?
    | |- preserves _ (try_except_KeyboardInterrupt _ _) => apply (preserves_try _ trans)
    | |- preserves _ (try_except_Exception _ _) => apply (preserves_try_Exception _ trans)
    | |- preserves _ (mbind _ _) => apply (preserves_bind _ trans); [| intros ?]
    | |- preserves _ (modify _) => prim
    | |- preserves _ (modify_world _) => prim
    | |- preserves _ (let _ := _ in _) => cbv zeta
    | |- preserves _ (match ?x with _ => _ end) => destruct x
    | |- preserves _ (if ?x then _ else _) => destruct x
    | |- preserves _ _ => progress unfold_methods_keep_fresh
    end.

(** *** Identities only grow *)

Lemma alloc_grows_refl st : alloc_grows st st.
Proof. unfold alloc_grows. lia. Qed.

Lemma alloc_grows_trans st1 st2 st3 :
  alloc_grows st1 st2 -> alloc_grows st2 st3 -> alloc_grows st1 st3.
Proof. unfold alloc_grows. lia. Qed.

Lemma alloc_grows_fresh : preserves alloc_grows fresh.
Proof. intros st. unfold alloc_grows. simpl. lia. Qed.

Lemma alloc_grows_modify f : preserves alloc_grows (modify f).
Proof. intros st. unfold alloc_grows. simpl. lia. Qed.

Lemma alloc_grows_modify_world f :
  (forall w, next_id (f w) = next_id w) -> preserves alloc_grows (modify_world f).
Proof. intros Hf st. unfold alloc_grows. simpl. rewrite Hf. lia. Qed.

Ltac alloc_grows_prim :=
  first [ apply alloc_grows_fresh
        | apply alloc_grows_modify
        | apply alloc_grows_modify_world; intros ?; reflexivity ].

Lemma alloc_grows_step st op : alloc_grows st (step st op).
Proof.
  destruct op; cbv beta iota delta [step]; as_preserves alloc_grows;
    preserves_fresh_tac alloc_grows_refl alloc_grows_trans alloc_grows_prim.
Qed.

(** *** The flag of [_atexit] *)

Lemma same_flag_refl st : same_flag st st.
Proof. reflexivity. Qed.

Lemma same_flag_trans st1 st2 st3 :
  same_flag st1 st2 -> same_flag st2 st3 -> same_flag st1 st3.
Proof. unfold same_flag. congruence. Qed.

Lemma same_flag_modify_world f : preserves same_flag (modify_world f).
Proof. intros st. reflexivity. Qed.

Lemma same_flag_modify f :
  (forall s, _atexit_ran (f s) = _atexit_ran s) -> preserves same_flag (modify f).
Proof. intros Hf st. apply Hf. Qed.

Ltac same_flag_prim :=
  first [ apply same_flag_modify_world
        | apply same_flag_modify; intros ?; reflexivity ].

Lemma same_flag_step st op : is_cleanup_path op = false -> same_flag st (step st op).
Proof.
  destruct op; try discriminate; intros _;
    cbv beta iota delta [step]; as_preserves same_flag;
    preserves_tac same_flag_refl same_flag_trans same_flag_prim.
Qed.

(** *** The cache outside [resources] *)

Lemma same_cache_refl st : same_cache st st.
Proof. reflexivity. Qed.

Lemma same_cache_trans st1 st2 st3 :
  same_cache st1 st2 -> same_cache st2 st3 -> same_cache st1 st3.
Proof. unfold same_cache. congruence. Qed.

Lemma same_cache_modify_world f : preserves same_cache (modify_world f).
Proof. intros st. reflexivity. Qed.

Lemma same_cache_modify f :
  (forall s, _resources (f s) = _resources s) -> preserves same_cache (modify f).
Proof. intros Hf st. apply Hf. Qed.

Ltac same_cache_prim :=
  first [ apply same_cache_modify_world
        | apply same_cache_modify; intros ?; reflexivity ].

Lemma same_cache_step st op : is_resources op = false -> same_cache st (step st op).
Proof.
  destruct op; try discriminate; intros _;
    cbv beta iota delta [step]; as_preserves same_cache;
    preserves_tac same_cache_refl same_cache_trans same_cache_prim.
Qed.

(** *** The connection set outside [new_connection] *)

Lemma clients_shrink_refl st : clients_shrink st st.
Proof. unfold clients_shrink. reflexivity. Qed.

Lemma clients_shrink_trans st1 st2 st3 :
  clients_shrink st1 st2 -> clients_shrink st2 st3 -> clients_shrink st1 st3.
Proof. unfold clients_shrink. intros H1 H2. etransitivity; eassumption. Qed.

Lemma clients_shrink_modify_world f : preserves clients_shrink (modify_world f).
Proof. intros st. unfold clients_shrink. simpl. reflexivity. Qed.

Lemma clients_shrink_modify f :
  (forall s, _clients (f s) ⊆ _clients s) -> preserves clients_shrink (modify f).
Proof. intros Hf st. apply Hf. Qed.

Ltac clients_shrink_prim :=
  first [ apply clients_shrink_modify_world
        | apply clients_shrink_modify; intros ? x Hx; simpl in Hx;
          rewrite ?elem_of_difference in Hx;
          first [ exact Hx | exact (proj1 Hx) | inversion Hx ] ].

Lemma clients_shrink_step st op :
  is_new_connection op = false -> clients_shrink st (step st op).
Proof.
  destruct op; try discriminate; intros _;
    cbv beta iota delta [step]; as_preserves clients_shrink;
    preserves_tac clients_shrink_refl clients_shrink_trans clients_shrink_prim.
Qed.

(** *** The registry *)

Lemma run_get_session_unregistered st app_path sid :
  _applications (self st) !! app_path = None ->
  get_session app_path sid st =
  (Raise (ValueError (does_not_exist_message app_path)), st).
Proof.
  intros Hnone. unfold get_session. run_monad.
  rewrite bool_decide_eq_true_2 by (apply not_elem_of_dom; exact Hnone). reflexivity.
Qed.

Lemma run_get_session_registered st app_path sid ctx :
  _applications (self st) !! app_path = Some ctx ->
  get_session app_path sid st =
  (Ok (getOrCreateSession (now (world st)) sid ctx).1,
   on_self (set_applications
     (<[app_path := (getOrCreateSession (now (world st)) sid ctx).2]>
        (_applications (self st)))) st).
Proof.
  intros Hctx. unfold get_session. run_monad.
  rewrite bool_decide_eq_false_2.
  - unfold ApplicationContext_get_session. run_monad. rewrite Hctx. reflexivity.
  - intros Hn. apply Hn. apply elem_of_dom. eauto.
Qed.

Lemma made_from_getOrCreateSession t sid ctx :
  made_from (getOrCreateSession t sid ctx).2 = made_from ctx.
Proof.
  unfold getOrCreateSession.
  destruct (sessions ctx !! sid) as [s |]; [destruct (expired s) |]; reflexivity.
Qed.

Lemma fmap_alter_same {A B} (h : A -> B) (g : A -> A) (i : string) (m : gmap string A) :
  (forall x, h (g x) = h x) -> h <$> alter g i m = h <$> m.
Proof.
  intros Hg. apply map_eq. intros j. rewrite !lookup_fmap.
  destruct (decide (i = j)) as [-> | Hne].
  - rewrite lookup_alter_eq. destruct (m !! j); simpl; [rewrite Hg |]; reflexivity.
  - rewrite lookup_alter_ne by exact Hne. reflexivity.
Qed.

Lemma fmap_fmap_same {A B} (h : A -> B) (g : A -> A) (m : gmap string A) :
  (forall x, h (g x) = h x) -> h <$> (g <$> m) = h <$> m.
Proof.
  intros Hg. apply map_eq. intros j. rewrite !lookup_fmap.
  destruct (m !! j); simpl; [rewrite Hg |]; reflexivity.
Qed.

Lemma fmap_insert_same {A B} (h : A -> B) (i : string) (x y : A) (m : gmap string A) :
  m !! i = Some x -> h y = h x -> h <$> <[i := y]> m = h <$> m.
Proof.
  intros Hx Hy. apply map_eq. intros j. rewrite !lookup_fmap.
  destruct (decide (i = j)) as [-> | Hne].
  - rewrite lookup_insert_eq, Hx. simpl. rewrite Hy. reflexivity.
  - rewrite lookup_insert_ne by exact Hne. reflexivity.
Qed.

Lemma same_registry_refl st : same_registry st st.
Proof. reflexivity. Qed.

Lemma same_registry_trans st1 st2 st3 :
  same_registry st1 st2 -> same_registry st2 st3 -> same_registry st1 st3.
Proof. unfold same_registry. congruence. Qed.

Lemma same_registry_modify_world f : preserves same_registry (modify_world f).
Proof. intros st. reflexivity. Qed.

Lemma same_registry_modify f :
  (forall s, made_from <$> _applications (f s) = made_from <$> _applications s) ->
  preserves same_registry (modify f).
Proof. intros Hf st. apply Hf. Qed.

Ltac same_registry_prim :=
  first [ apply same_registry_modify_world
        | apply same_registry_modify; intros ?; simpl;
          first [ reflexivity
                | apply fmap_alter_same; intros ?; reflexivity
                | apply fmap_fmap_same; intros ?; reflexivity ] ].

Lemma same_registry_get_session app_path sid : preserves same_registry (get_session app_path sid).
Proof.
  intros st. destruct (_applications (self st) !! app_path) as [ctx |] eqn:Hctx.
  - rewrite (run_get_session_registered _ _ _ _ Hctx). unfold same_registry. simpl.
    eapply fmap_insert_same; [exact Hctx | apply made_from_getOrCreateSession].
  - rewrite (run_get_session_unregistered _ _ _ Hctx). reflexivity.
Qed.

Lemma same_registry_step st op : same_registry st (step st op).
Proof.
  destruct op; cbv beta iota delta [step]; as_preserves same_registry;
    try apply same_registry_get_session;
    preserves_tac same_registry_refl same_registry_trans same_registry_prim.
Qed.

Lemma same_registry_steps st ops : same_registry st (steps st ops).
Proof.
  apply (preserves_steps same_registry same_registry_refl same_registry_trans (fun _ => True)).
  - intros op st' _. apply same_registry_step.
  - apply Forall_forall. intros; exact I.
Qed.

Lemma same_registry_lookup st st' path :
  same_registry st st' ->
  made_from <$> _applications (self st') !! path = made_from <$> _applications (self st) !! path.
Proof.
  unfold same_registry. intros H. rewrite <- !lookup_fmap, H. reflexivity.
Qed.

(** X4: the applications are registered once and for all.  After a
    successful construction and any operations, the registered paths are
    exactly the keys of the dictionary given to the constructor, every path
    still has the application it was given and the loop of the server, and
    [get_session] for any other path raises its ValueError and changes
    nothing. *)
Theorem registered_paths_are_fixed
    per_app_patterns toplevel_patterns settings
    applications hosts io_loop extra_patterns k current w srv w' ops :
  __init__ per_app_patterns toplevel_patterns settings
    applications hosts io_loop extra_patterns k current w = (Ok srv, w') ->
  let st := steps {| self := srv; world := w' |} ops in
  dom (_applications (self st)) = dom applications /\
  (forall path v, applications !! path = Some v ->
     exists ctx, _applications (self st) !! path = Some ctx /\
                 application ctx = v /\ ctx_loop ctx = default current io_loop) /\
  (forall path sid, applications !! path = None ->
     get_session path sid st =
       (Raise (ValueError (does_not_exist_message path)), st)).
Proof.
  intros Hinit st.
  destruct (init_inversion _ _ _ _ _ _ _ _ _ _ _ _ Hinit) as (_ & rel & _ & _ & Happs & _).
  assert (Hlook : forall path,
    made_from <$> _applications (self st) !! path =
    (fun v => (v, default current io_loop)) <$> applications !! path).
  { intros path. unfold st.
    rewrite (same_registry_lookup _ _ path (same_registry_steps {| self := srv; world := w' |} ops)).
    simpl. rewrite Happs, lookup_fmap. destruct (applications !! path); reflexivity. }
  split_and!.
  - apply set_eq. intros path. rewrite !elem_of_dom. specialize (Hlook path).
    destruct (_applications (self st) !! path), (applications !! path);
      simpl in Hlook; try discriminate; split; intros [? ?]; eauto; discriminate.
  - intros path v Hv. specialize (Hlook path). rewrite Hv in Hlook.
    destruct (_applications (self st) !! path) as [ctx |]; [| discriminate].
    exists ctx. simpl in Hlook. unfold made_from in Hlook. split; [reflexivity |].
    split; congruence.
  - intros path sid Hnone. apply run_get_session_unregistered.
    specialize (Hlook path). rewrite Hnone in Hlook.
    destruct (_applications (self st) !! path); [discriminate | reflexivity].
Qed.

Lemma registered_paths_are_fixed_witness :
  example_init 37000 = (Ok (example_server 37000), example_init_world) /\
  dom (_applications (self (steps (example_state 37000) two_clients))) = dom example_applications /\
  get_session "/nope" "s1" (steps (example_state 37000) two_clients) =
    (Raise (ValueError (does_not_exist_message "/nope")),
     steps (example_state 37000) two_clients).
Proof.
  assert (H : example_init 37000 = (Ok (example_server 37000), example_init_world)).
  { vm_compute. reflexivity. }
  destruct (registered_paths_are_fixed _ _ _ _ _ _ _ _ _ _ _ _ two_clients H)
    as (Hdom & _ & Hget).
  split; [exact H |]. split; [exact Hdom |].
  apply Hget. vm_compute. reflexivity.
Defined.

(** ** The configuration *)

Lemma run_check_host_whitelist_result st request :
  (_check_host_whitelist request st).1 =
  if bool_decide (host request ∈ _hosts (self st)) then Ok tt
  else Raise (HTTPError 403 "request host not in whitelist").
Proof.
  destruct (decide (host request ∈ _hosts (self st))) as [Hin | Hnot].
  - rewrite (_check_host_whitelist_member _ _ Hin), bool_decide_eq_true_2 by exact Hin.
    reflexivity.
  - rewrite (_check_host_whitelist_stranger _ _ Hnot), bool_decide_eq_false_2 by exact Hnot.
    reflexivity.
Qed.

Lemma configuration_fixed_hosts st ops : _hosts (self (steps st ops)) = _hosts (self st).
Proof.
  pose proof (same_config_steps st ops) as H. unfold same_config, config_of in H. congruence.
Qed.

(** X5: no operation changes what the constructor has configured: the
    host whitelist, the loop, the routes, the executor, the three jobs and
    the linger time are, after any operations, what they were; so whether a
    request passes the host check does not depend on what the server has
    done before. *)
Theorem configuration_is_fixed (st : State) (ops : list Op) :
  let st' := steps st ops in
  _hosts (self st') = _hosts (self st) /\
  _loop (self st') = _loop (self st) /\
  handlers (self st') = handlers (self st) /\
  _executor (self st') = _executor (self st) /\
  _stats_job (self st') = _stats_job (self st) /\
  _cleanup_job (self st') = _cleanup_job (self st) /\
  _ping_job (self st') = _ping_job (self st) /\
  _unused_session_linger_seconds (self st') = _unused_session_linger_seconds (self st) /\
  forall request,
    (_check_host_whitelist request st').1 = (_check_host_whitelist request st).1.
Proof.
  intros st'. pose proof (same_config_steps st ops) as H. fold st' in H.
  unfold same_config, config_of in H.
  assert (Hh : _hosts (self st') = _hosts (self st)) by congruence.
  split_and!; try congruence.
  intros request. rewrite !run_check_host_whitelist_result, Hh. reflexivity.
Qed.

(** ** Cleaning up at most once *)

Lemma executor_shutdowns_exited st :
  executor_shutdowns (exited st) = S (executor_shutdowns st).
Proof.
  unfold executor_shutdowns. simpl. rewrite filter_app, length_app. simpl. lia.
Qed.

Lemma shutdown_step st op :
  is_direct_cleanup op = false ->
  _atexit_ran (self (step st op)) = (_atexit_ran (self st) || is_cleanup_path op) /\
  executor_shutdowns (step st op) =
    executor_shutdowns st +
    (if negb (_atexit_ran (self st)) && is_cleanup_path op then 1 else 0).
Proof.
  intros Hop. destruct (is_cleanup_path op) eqn:Hpath.
  - destruct op; try discriminate; simpl.
    + destruct (_atexit_ran (self st)) eqn:Hran.
      * rewrite (run_atexit_again _ Hran). simpl. rewrite Hran. split; [reflexivity | lia].
      * rewrite (run_atexit_first _ Hran). cbn [snd].
        rewrite executor_shutdowns_exited. split; [reflexivity | simpl; lia].
    + rewrite run_sigterm. destruct (_atexit_ran (self st)) eqn:Hran.
      * rewrite run_atexit_again by exact Hran. cbn [snd].
        rewrite executor_shutdowns_add_events. simpl.
        rewrite filter_cons_False by (vm_compute; discriminate).
        rewrite stop_events_no_shutdown, Hran. simpl. split; [reflexivity | lia].
      * rewrite run_atexit_first by exact Hran. cbn [snd].
        rewrite executor_shutdowns_exited, executor_shutdowns_add_events. simpl.
        rewrite filter_cons_False by (vm_compute; discriminate).
        rewrite stop_events_no_shutdown. simpl. split; [reflexivity | lia].
  - rewrite (same_flag_step st op Hpath).
    destruct (no_cleanup_step st op Hpath) as [_ ->].
    rewrite orb_false_r, andb_false_r. split; [reflexivity | lia].
Qed.

(** X6: over any sequence of operations that does not call the coroutine
    [_cleanup] directly, the cleanup sequence runs at most once: the
    executor is shut down once, by the first [_atexit] or termination signal
    that comes while the flag [_atexit_ran] is not set, and never again; the
    flag is never reset. *)
Theorem cleanup_runs_at_most_once (st : State) (ops : list Op) :
  forallb (fun op => negb (is_direct_cleanup op)) ops = true ->
  let st' := steps st ops in
  _atexit_ran (self st') = (_atexit_ran (self st) || existsb is_cleanup_path ops) /\
  executor_shutdowns st' =
    executor_shutdowns st +
    (if negb (_atexit_ran (self st)) && existsb is_cleanup_path ops then 1 else 0).
Proof.
  revert st. induction ops as [| op ops IH]; intros st Hops; simpl.
  - rewrite orb_false_r, andb_false_r. split; [reflexivity | lia].
  - simpl in Hops. apply andb_true_iff in Hops as [Hop Hops].
    apply negb_true_iff in Hop.
    destruct (shutdown_step st op Hop) as [Hflag Hcount].
    destruct (IH (step st op) Hops) as [Hflag' Hcount'].
    change (fold_left step ops (step st op)) with (steps (step st op) ops).
    rewrite Hflag', Hcount', Hflag, Hcount. split.
    + rewrite orb_assoc. reflexivity.
    + destruct (_atexit_ran (self st)), (is_cleanup_path op), (existsb is_cleanup_path ops);
        simpl; lia.
Qed.

Lemma cleanup_runs_at_most_once_witness :
  forallb (fun op => negb (is_direct_cleanup op))
    [op_sigterm 15; op_atexit; op_stop; op_sigterm 15; op_atexit] = true /\
  executor_shutdowns
    (steps (example_state 37000) [op_sigterm 15; op_atexit; op_stop; op_sigterm 15; op_atexit])
  = 1.
Proof.
  assert (H : forallb (fun op => negb (is_direct_cleanup op))
    [op_sigterm 15; op_atexit; op_stop; op_sigterm 15; op_atexit] = true) by reflexivity.
  split; [exact H |].
  destruct (cleanup_runs_at_most_once (example_state 37000) _ H) as [_ Hcount].
  rewrite Hcount. reflexivity.
Defined.

(** ** What the resource cache holds *)

Lemma same_config_hosts st op : _hosts (self (step st op)) = _hosts (self st).
Proof.
  pose proof (same_config_step st op) as H. unfold same_config, config_of in H. congruence.
Qed.

Lemma cache_ok_step st op : cache_ok st -> cache_ok (step st op).
Proof.
  intros [Hentries Hids].
  assert (Hkeep : _resources (self (step st op)) = _resources (self st) ->
                  cache_ok (step st op)).
  { intros Hsame. pose proof (alloc_grows_step st op) as Hgrow. unfold alloc_grows in Hgrow.
    split.
    - intros u r Hr. rewrite Hsame in Hr. rewrite same_config_hosts.
      destruct (Hentries u r Hr) as (H1 & H2 & H3 & H4). split_and!; try assumption. lia.
    - intros u1 u2 r1 r2. rewrite Hsame. apply Hids. }
  destruct (is_resources op) eqn:Hop.
  - destruct op; try discriminate. clear Hkeep. simpl.
    destruct (decide (host request ∈ _hosts (self st))) as [Hin | Hnot].
    + destruct (_resources (self st) !! (protocol request ++ "://" ++ host request ++ "/"))
        as [r |] eqn:Hr.
      * rewrite (run_resources_hit _ _ _ Hin Hr). split; assumption.
      * rewrite (run_resources_miss _ _ Hin Hr). cbn [snd]. split.
        -- intros u r'. simpl.
           destruct (decide (protocol request ++ "://" ++ host request ++ "/" = u))
             as [<- | Hne].
           ++ rewrite lookup_insert_eq. intros [= <-]. split_and!; simpl; try reflexivity.
              ** lia.
              ** exists (protocol request), (host request). split; [exact Hin | reflexivity].
           ++ rewrite lookup_insert_ne by exact Hne. intros Hr'.
              destruct (Hentries u r' Hr') as (H1 & H2 & H3 & H4).
              split_and!; try assumption. lia.
        -- intros u1 u2 r1 r2. simpl.
           destruct (decide (protocol request ++ "://" ++ host request ++ "/" = u1))
             as [<- | Hne1];
           destruct (decide (protocol request ++ "://" ++ host request ++ "/" = u2))
             as [<- | Hne2];
             rewrite ?lookup_insert_eq, ?lookup_insert_ne by assumption.
           ++ reflexivity.
           ++ intros [= <-] H2 Hid. simpl in Hid.
              destruct (Hentries u2 r2 H2) as (_ & _ & Hlt & _). lia.
           ++ intros H1 [= <-] Hid. simpl in Hid.
              destruct (Hentries u1 r1 H1) as (_ & _ & Hlt & _). lia.
           ++ apply Hids.
    + destruct (host_not_in_whitelist_is_forbidden_aux st request Hnot) as [_ ->].
      split; assumption.
  - apply Hkeep. apply (same_cache_step st op Hop).
Qed.

Lemma cache_ok_steps st ops : cache_ok st -> cache_ok (steps st ops).
Proof.
  revert st. induction ops as [| op ops IH]; intros st H; simpl; [exact H |].
  apply IH, cache_ok_step, H.
Qed.

(** X7: after a successful construction and any operations, every entry of
    the resource cache is stored under the root URL [scheme://host/] of a
    host of the whitelist, holds the server-mode descriptor of that very
    URL, and is an object of its own: two different URLs never share one
    descriptor object. *)
Theorem resource_cache_holds_whitelisted_root_urls
    per_app_patterns toplevel_patterns settings
    applications hosts io_loop extra_patterns k current w srv w' ops :
  __init__ per_app_patterns toplevel_patterns settings
    applications hosts io_loop extra_patterns k current w = (Ok srv, w') ->
  let st := steps {| self := srv; world := w' |} ops in
  (forall u r, _resources (self st) !! u = Some r ->
     root_url r = u /\ mode r = "server" /\
     exists scheme h, h ∈ hosts /\ u = scheme ++ "://" ++ h ++ "/") /\
  (forall u1 u2 r1 r2,
     _resources (self st) !! u1 = Some r1 -> _resources (self st) !! u2 = Some r2 ->
     u1 <> u2 -> res_id r1 <> res_id r2).
Proof.
  intros Hinit st.
  destruct (init_ok_ping_job _ _ _ _ _ _ _ _ _ _ _ _ Hinit) as (_ & _ & _ & Hres & _ & Hhosts).
  assert (H0 : cache_ok {| self := srv; world := w' |}).
  { split; simpl; rewrite Hres; intros u; rewrite lookup_empty; discriminate. }
  destruct (cache_ok_steps _ ops H0) as [Hentries Hids]. fold st in Hentries, Hids.
  assert (Hh : _hosts (self st) = hosts).
  { unfold st. rewrite configuration_fixed_hosts. exact Hhosts. }
  split.
  - intros u r Hr. destruct (Hentries u r Hr) as (H1 & H2 & _ & H4).
    rewrite Hh in H4. auto.
  - intros u1 u2 r1 r2 H1 H2 Hne Hid. apply Hne. eapply Hids; eassumption.
Qed.

Lemma resource_cache_holds_whitelisted_root_urls_witness :
  example_init 37000 = (Ok (example_server 37000), example_init_world) /\
  forall u r,
    _resources (self (steps (example_state 37000)
                        [op_resources good_request; op_resources evil_request])) !! u = Some r ->
    root_url r = u /\ mode r = "server".
Proof.
  assert (H : example_init 37000 = (Ok (example_server 37000), example_init_world)).
  { vm_compute. reflexivity. }
  split; [exact H |].
  destruct (resource_cache_holds_whitelisted_root_urls _ _ _ _ _ _ _ _ _ _ _ _
              [op_resources good_request; op_resources evil_request] H) as [Hentries _].
  intros u r Hr. destruct (Hentries u r Hr) as (H1 & H2 & _). split; assumption.
Defined.

(** ** Connections come and go *)

Lemma run_new_connection protocol socket application_context session st :
  exists st1,
    new_connection protocol socket application_context session st =
      (Ok (next_id (world st)), st1) /\
    _clients (self st1) = _clients (self st) ∪ {[next_id (world st)]} /\
    next_id (world st1) = S (next_id (world st)) /\
    heap (world st1) !! next_id (world st) =
      Some {| conn_protocol := protocol; conn_socket := socket;
              conn_application_context := application_context;
              conn_session := Some session; ping_count := 0 |} /\
    (forall c, c <> next_id (world st) -> heap (world st1) !! c = heap (world st) !! c) /\
    trace (world st1) = trace (world st) /\
    _resources (self st1) = _resources (self st).
Proof.
  unfold new_connection, ServerConnection_new, fresh, store_connection, update_session,
    modify, modify_world, ret. run_monad.
  eexists. split; [reflexivity |]. simpl. split_and!; try reflexivity.
  - apply lookup_insert_eq.
  - intros c Hc. apply lookup_insert_ne. congruence.
Qed.

Lemma clients_allocated_step st op : clients_allocated st -> clients_allocated (step st op).
Proof.
  intros Hwf. destruct (is_new_connection op) eqn:Hop.
  - destruct op; try discriminate. cbv beta iota delta [step].
    match goal with
    | |- context [new_connection ?p ?s ?a ?i st] =>
        destruct (run_new_connection p s a i st) as (st1 & Hrun & Hcl & Hnext & _)
    end.
    rewrite Hrun. cbn [snd].
    intros c Hc. rewrite Hcl in Hc. rewrite Hnext.
    apply elem_of_union in Hc as [Hc | Hc].
    + specialize (Hwf c Hc). lia.
    + apply elem_of_singleton in Hc as ->. lia.
  - intros c Hc. apply (clients_shrink_step st op Hop) in Hc.
    pose proof (alloc_grows_step st op) as Hgrow. unfold alloc_grows in Hgrow.
    specialize (Hwf c Hc). lia.
Qed.

Lemma clients_allocated_steps st ops :
  clients_allocated st -> clients_allocated (steps st ops).
Proof.
  revert st. induction ops as [| op ops IH]; intros st H; simpl; [exact H |].
  apply IH, clients_allocated_step, H.
Qed.

(** X8: after a successful construction and any operations,
    [new_connection] returns a connection that was not in the connection set
    and puts it there, so that the set grows by exactly one; a
    [client_lost] for that connection then returns normally and gives back
    the connection set as it was before. *)
Theorem connection_comes_and_goes
    per_app_patterns toplevel_patterns settings
    applications hosts io_loop extra_patterns k current w srv w' ops
    protocol socket application_context session :
  __init__ per_app_patterns toplevel_patterns settings
    applications hosts io_loop extra_patterns k current w = (Ok srv, w') ->
  let st := steps {| self := srv; world := w' |} ops in
  exists c st1 st2,
    new_connection protocol socket application_context session st = (Ok c, st1) /\
    (c ∉ _clients (self st)) /\
    _clients (self st1) = _clients (self st) ∪ {[c]} /\
    size (_clients (self st1)) = S (size (_clients (self st))) /\
    client_lost c st1 = (Ok tt, st2) /\
    _clients (self st2) = _clients (self st).
Proof.
  intros Hinit st.
  destruct (init_ok_ping_job _ _ _ _ _ _ _ _ _ _ _ _ Hinit) as (_ & _ & Hcl0 & _).
  assert (Hwf : clients_allocated st).
  { apply clients_allocated_steps. intros c Hc. simpl in Hc. rewrite Hcl0 in Hc.
    apply not_elem_of_empty in Hc. contradiction. }
  destruct (run_new_connection protocol socket application_context session st)
    as (st1 & Hrun & Hcl & _).
  assert (Hnew : next_id (world st) ∉ _clients (self st)).
  { intros Hin. specialize (Hwf _ Hin). lia. }
  destruct (run_detach_session (next_id (world st))
              (on_self (set_clients (_clients (self st1) ∖ {[next_id (world st)]})) st1))
    as (st2 & Hrun2 & Hcl2 & _).
  exists (next_id (world st)), st1, st2. split_and!.
  - exact Hrun.
  - exact Hnew.
  - exact Hcl.
  - rewrite Hcl, size_union, size_singleton; [lia |].
    intros x Hx Hx'. apply elem_of_singleton in Hx' as ->. contradiction.
  - rewrite run_client_lost. exact Hrun2.
  - rewrite Hcl2. simpl. rewrite Hcl. apply set_eq. intros x.
    rewrite elem_of_difference, elem_of_union, elem_of_singleton.
    split; [tauto |]. intros Hx. split; [tauto | congruence].
Qed.

Lemma connection_comes_and_goes_witness :
  example_init 37000 = (Ok (example_server 37000), example_init_world) /\
  exists c st1 st2,
    new_connection "bokeh" {| ws_id := 12; ws_open := true |} "/app" "s1"
      (steps (example_state 37000) two_clients) = (Ok c, st1) /\
    size (_clients (self st1)) = 3 /\
    client_lost c st1 = (Ok tt, st2) /\
    size (_clients (self st2)) = 2.
Proof.
  assert (H : example_init 37000 = (Ok (example_server 37000), example_init_world)).
  { vm_compute. reflexivity. }
  split; [exact H |].
  destruct (connection_comes_and_goes _ _ _ _ _ _ _ _ _ _ _ _ two_clients
              "bokeh" {| ws_id := 12; ws_open := true |} "/app" "s1" H)
    as (c & st1 & st2 & Hrun & _ & _ & Hsize & Hlost & Hback).
  exists c, st1, st2. split; [exact Hrun |]. split; [| split; [exact Hlost |]].
  - rewrite Hsize. vm_compute. reflexivity.
  - rewrite Hback. vm_compute. reflexivity.
Defined.

(** ** An interrupted loop *)


(** ** The first termination signal *)

(** X10: a termination signal that comes before [_atexit] has run prints
    the notice, stops the jobs and the loop, and only then runs the exit
    handler, which stops the stats job once more, makes a new loop current
    and runs the cleanup on it; the signal number and the frame play no
    part.  Afterwards the connection set is empty and the flag is set. *)
Theorem first_sigterm_stops_then_cleans_up (st : State) (signum : Z) (frame : unit) :
  _atexit_ran (self st) = false ->
  exists st',
    _sigterm signum frame st = (Ok tt, st') /\
    trace (world st') =
      (trace (world st) ++
       [sigterm_notice] ++ stop_events (self st) ++
       [PC_stop (_stats_job (self st)); IOLoop_clear_current;
        IOLoop_new (next_id (world st)); Loop_make_current (next_id (world st));
        Loop_run_sync (next_id (world st)) m_cleanup;
        Log DEBUG "Shutdown: cleaning up" []; Executor_shutdown false])%list /\
    _clients (self st') = ∅ /\
    _atexit_ran (self st') = true /\
    config_of (self st') = config_of (self st) /\
    forall signum' frame', _sigterm signum' frame' st = (Ok tt, st').
Proof.
  intros Hran. eexists. split.
  - rewrite run_sigterm. apply run_atexit_first. exact Hran.
  - split_and!; try reflexivity.
    + simpl. unfold atexit_events, cleanup_events, stop_events, job_events.
      destruct (_ping_job (self st)); simpl; rewrite <- ?app_assoc; reflexivity.
    + intros signum' frame'. rewrite run_sigterm. apply run_atexit_first. exact Hran.
Qed.

Lemma first_sigterm_stops_then_cleans_up_witness :
  _atexit_ran (self (steps (example_state 37000) two_clients)) = false /\
  exists st',
    _sigterm 15 tt (steps (example_state 37000) two_clients) = (Ok tt, st') /\
    _clients (self st') = ∅.
Proof.
  assert (H : _atexit_ran (self (steps (example_state 37000) two_clients)) = false).
  { vm_compute. reflexivity. }
  split; [exact H |].
  destruct (first_sigterm_stops_then_cleans_up _ 15 tt H) as (st' & Hrun & _ & Hcl & _).
  exists st'. split; [exact Hrun | exact Hcl].
Defined.

(** ** What the cleanup leaves alone *)

(** X11: the cleanup drops the connections from the set without detaching
    them: [_cleanup], and a first [_atexit] with it, return normally and
    leave every connection object, every application context with its
    sessions, and the resource cache as they were. *)
Theorem cleanup_detaches_nothing (st : State) :
  (exists st',
     _cleanup st = (Ok tt, st') /\
     _clients (self st') = ∅ /\
     heap (world st') = heap (world st) /\
     _applications (self st') = _applications (self st) /\
     _resources (self st') = _resources (self st) /\
     forall c, detached c st' <-> detached c st) /\
  (_atexit_ran (self st) = false ->
   exists st',
     _atexit st = (Ok tt, st') /\
     _clients (self st') = ∅ /\
     heap (world st') = heap (world st) /\
     _applications (self st') = _applications (self st) /\
     _resources (self st') = _resources (self st) /\
     forall c, detached c st' <-> detached c st).
Proof.
  split.
  - exists (cleaned_up st). split; [apply run_cleanup |].
    split_and!; try reflexivity; intros c; reflexivity.
  - intros Hran. exists (exited st). split; [apply run_atexit_first, Hran |].
    split_and!; try reflexivity; intros c; reflexivity.
Qed.

Lemma cleanup_detaches_nothing_witness :
  _atexit_ran (self (steps (example_state 37000) two_clients)) = false /\
  exists st',
    _atexit (steps (example_state 37000) two_clients) = (Ok tt, st') /\
    _clients (self st') = ∅ /\
    ~ detached 0 st'.
Proof.
  assert (H : _atexit_ran (self (steps (example_state 37000) two_clients)) = false).
  { vm_compute. reflexivity. }
  split; [exact H |].
  destruct (cleanup_detaches_nothing (steps (example_state 37000) two_clients))
    as [_ Hexit].
  destruct (Hexit H) as (st' & Hrun & Hcl & _ & _ & _ & Hdet).
  exists st'. split; [exact Hrun |]. split; [exact Hcl |].
  intros Hd. apply Hdet in Hd. vm_compute in Hd. discriminate Hd.
Defined.

(** ** A tick with nobody connected *)

(** X12: with an empty connection set a keep-alive tick does nothing and
    cannot fail; in particular this is so after the cleanup, whatever the
    sockets of the former connections are like. *)
Theorem keep_alive_without_clients (st : State) :
  (_clients (self st) = ∅ -> keep_alive st = (Ok tt, st)) /\
  (forall st', _cleanup st = (Ok tt, st') -> keep_alive st' = (Ok tt, st')).
Proof.
  assert (H : forall s, _clients (self s) = ∅ -> keep_alive s = (Ok tt, s)).
  { intros s Hs. rewrite run_keep_alive, Hs, elements_empty. reflexivity. }
  split; [apply H |].
  intros st' Hrun. rewrite run_cleanup in Hrun. inversion Hrun; subst.
  apply H. reflexivity.
Qed.

Lemma keep_alive_without_clients_witness :
  _clients (self (example_state 37000)) = ∅ /\
  keep_alive (example_state 37000) = (Ok tt, example_state 37000) /\
  keep_alive (cleaned_up (steps (example_state 37000) two_clients)) =
    (Ok tt, cleaned_up (steps (example_state 37000) two_clients)).
Proof.
  assert (H : _clients (self (example_state 37000)) = ∅) by reflexivity.
  destruct (keep_alive_without_clients (example_state 37000)) as [Hempty _].
  destruct (keep_alive_without_clients (steps (example_state 37000) two_clients))
    as [_ Hafter].
  split; [exact H |]. split; [exact (Hempty H) |].
  apply Hafter. apply run_cleanup.
Defined.

(** ** The URLs *)

(** X13: for a request whose host is whitelisted, the root URL is
    [protocol://host/] and the websocket URL is the host and the websocket
    path behind [wss://] when the protocol of the request is exactly
    [https], and behind [ws://] for every other protocol; neither derivation
    changes the state. *)
Theorem urls_of_a_whitelisted_request
    (st : State) (request : Request) (websocket_path : string) :
  host request ∈ _hosts (self st) ->
  root_url_for_request request st =
    (Ok (protocol request ++ "://" ++ host request ++ "/"), st) /\
  (protocol request = "https" ->
   websocket_url_for_request request websocket_path st =
     (Ok ("wss://" ++ host request ++ websocket_path), st)) /\
  (protocol request <> "https" ->
   websocket_url_for_request request websocket_path st =
     (Ok ("ws://" ++ host request ++ websocket_path), st)).
Proof.
  intros Hin. split; [apply run_root_url_for_request, Hin |].
  unfold websocket_url_for_request.
  rewrite run_bind, (_check_host_whitelist_member _ _ Hin). cbn beta iota.
  split.
  - intros ->. reflexivity.
  - intros Hne. apply String.eqb_neq in Hne. rewrite Hne. reflexivity.
Qed.

Lemma urls_of_a_whitelisted_request_witness :
  (host {| host := "good.example"; protocol := "HTTPS" |} ∈ _hosts (self (example_state 0))) /\
  "HTTPS" <> "https" /\
  websocket_url_for_request {| host := "good.example"; protocol := "HTTPS" |} "/app/ws"
    (example_state 0) = (Ok "ws://good.example/app/ws", example_state 0).
Proof.
  assert (H1 : host {| host := "good.example"; protocol := "HTTPS" |}
               ∈ _hosts (self (example_state 0))).
  { apply list_elem_of_singleton. reflexivity. }
  assert (H2 : "HTTPS" <> "https") by discriminate.
  split; [exact H1 |]. split; [exact H2 |].
  destruct (urls_of_a_whitelisted_request (example_state 0)
              {| host := "good.example"; protocol := "HTTPS" |} "/app/ws" H1)
    as (_ & _ & Hws).
  exact (Hws H2).
Defined.
